(** * React-Native-Template: navigation helpers and the login bottom sheet

    A shallow embedding of
      - [src/navigation/helpers/navigationUtilities.ts]
        (active-route lookup, hardware back button, navigation persistence,
        the [RootNavigation] handle), and
      - [src/screens/Login/index.tsx]
        (the shared values of the bottom sheet and its gesture handlers),
    followed by the properties of the specification that concern them.

    JavaScript numbers are IEEE-754 binary64 values: they are modelled by
    Rocq's primitive floats, whose operations are the same ones.  Array
    indices are modelled by [Z]; a function that can raise returns a
    [Completion]. *)

From stdpp Require Import base option list strings.
From Stdlib Require Import ZArith Lia.
From Stdlib Require Import Floats.

Local Open Scope Z_scope.

(** ** JavaScript completions *)

(** The only exception the modelled code can raise by itself: reading a
    property of [undefined]. *)
Inductive JsError : Type :=
  | TypeError.

Inductive Completion (A : Type) : Type :=
  | Return (a : A)
  | Throw (e : JsError).
Arguments Return {A} a.
Arguments Throw {A} e.

(** [array[i]]: the element when [i] is an index of the array, [undefined]
    ([None]) otherwise. *)
Definition js_get {A : Type} (array : list A) (i : Z) : option A :=
  if i <? 0 then None else array !! Z.to_nat i.

(** ** Navigation state (the part of [NavigationState | PartialState] the
    helpers read): [index] is optional, [routes] an array of routes with a
    [name] and an optional nested [state]. *)

Module Navigation.

Inductive NavigationState : Type :=
  | MkState (index : option Z) (routes : list Route)
with Route : Type :=
  | MkRoute (name : string) (state : option NavigationState).

Definition index (s : NavigationState) : option Z :=
  match s with MkState i _ => i end.
Definition routes (s : NavigationState) : list Route :=
  match s with MkState _ rs => rs end.
Definition name (r : Route) : string :=
  match r with MkRoute n _ => n end.
Definition state (r : Route) : option NavigationState :=
  match r with MkRoute _ s => s end.

(** [state.routes[state.index ?? 0]] *)
Definition selectedRoute (s : NavigationState) : option Route :=
  js_get (routes s) (default 0 (index s)).

(** [getActiveRouteName].  The inner [pick] walks the array to the selected
    entry, so that the recursive call is made on a sub-term;
    [getActiveRouteName_eq] below gives the equation in the shape of the
    source. *)
Fixpoint getActiveRouteName (s : NavigationState) : Completion string :=
  match s with
  | MkState index routes =>
      let fix pick (rs : list Route) (i : nat) {struct rs} : Completion string :=
        match rs, i with
        | [], _ => Throw TypeError
        | MkRoute name None :: _, O => Return name
        | MkRoute _ (Some nested) :: _, O => getActiveRouteName nested
        | _ :: rs', S i' => pick rs' i'
        end in
      let i := default 0 index in
      if i <? 0 then Throw TypeError else pick routes (Z.to_nat i)
  end.

(** The body of [getActiveRouteName] once [route] has been read. *)
Definition afterLookup (route : option Route) : Completion string :=
  match route with
  | None => Throw TypeError
  | Some route =>
      match state route with
      | None => Return (name route)
      | Some nested => getActiveRouteName nested
      end
  end.

(** Nesting depth along the selected path (used as a measure). *)
Fixpoint activeDepth (s : NavigationState) : nat :=
  match s with
  | MkState index routes =>
      let fix pick (rs : list Route) (i : nat) {struct rs} : nat :=
        match rs, i with
        | [], _ => O
        | MkRoute _ None :: _, O => O
        | MkRoute _ (Some nested) :: _, O => S (activeDepth nested)
        | _ :: rs', S i' => pick rs' i'
        end in
      let i := default 0 index in
      if i <? 0 then O else pick routes (Z.to_nat i)
  end.

(** The specification's reading of the lookup: the active route is the
    deepest selected leaf. *)
Inductive ActiveLeaf : NavigationState -> string -> Prop :=
  | active_here s n :
      selectedRoute s = Some (MkRoute n None) ->
      ActiveLeaf s n
  | active_nested s n nested leaf :
      selectedRoute s = Some (MkRoute n (Some nested)) ->
      ActiveLeaf nested leaf ->
      ActiveLeaf s leaf.

(** Some level reached by the descent selects no route. *)
Inductive Dangling : NavigationState -> Prop :=
  | dangling_here s :
      selectedRoute s = None ->
      Dangling s
  | dangling_nested s n nested :
      selectedRoute s = Some (MkRoute n (Some nested)) ->
      Dangling nested ->
      Dangling s.

(** The precondition: at every level reached, the index selects an entry. *)
Inductive Selectable : NavigationState -> Prop :=
  | selectable_leaf s n :
      selectedRoute s = Some (MkRoute n None) ->
      Selectable s
  | selectable_nested s n nested :
      selectedRoute s = Some (MkRoute n (Some nested)) ->
      Selectable nested ->
      Selectable s.

(** The example of the specification:
    [{index:0, routes:[{name:"Tab", state:{index:1,
       routes:[{name:"Home"},{name:"Settings"}]}}]}] *)
Definition exampleState : NavigationState :=
  MkState (Some 0)
    [MkRoute "Tab"
       (Some (MkState (Some 1) [MkRoute "Home" None; MkRoute "Settings" None]))].

(** *** The navigation host behind [navigationRef] *)

(** What the helpers read from the host at the time of a call. *)
Record NavigationHost : Type := {
  isReady : bool;                   (* navigationRef.isReady() *)
  getRootState : NavigationState;    (* navigationRef.getRootState() *)
  hostCanGoBack : bool               (* navigationRef.canGoBack() *)
}.

(** The calls with an effect outside the module. *)
Inductive Call : Type :=
  | ExitApp         (* BackHandler.exitApp() *)
  | HostGoBack.     (* navigationRef.goBack() *)

(** A JavaScript function value is a reference; the hook compares such
    references ([useEffect] dependencies), so predicates are modelled by
    their reference and read through the heap. *)
Definition Fn : Type := nat.
Definition FnHeap : Type := Fn -> string -> bool.

(** [onBackPress], given the content of [canExitRef.current].  The result
    is the value returned to [BackHandler] with the calls made. *)
Definition onBackPress (canExitRef_current : string -> bool)
    (navigationRef : NavigationHost) : Completion (bool * list Call) :=
  if negb (isReady navigationRef) then Return (false, [])
  else
    match getActiveRouteName (getRootState navigationRef) with
    | Throw e => Throw e
    | Return routeName =>
        if canExitRef_current routeName then Return (true, [ExitApp])
        else if hostCanGoBack navigationRef then Return (true, [HostGoBack])
        else Return (false, [])
    end.

(** *** [useBackButtonHandler] *)

Inductive BackHandlerCall : Type :=
  | AddEventListener       (* BackHandler.addEventListener('hardwareBackPress', onBackPress) *)
  | RemoveEventListener.   (* BackHandler.removeEventListener('hardwareBackPress', onBackPress) *)

(** The memory of the hook in one component instance. *)
Record BackButtonHook : Type := {
  canExitRef : Fn;                       (* canExitRef.current *)
  canExitDeps : Fn;                      (* [canExit] of the last run of the first effect *)
  subscribed : bool;                     (* onBackPress is a listener of BackHandler *)
  backHandlerCalls : list BackHandlerCall  (* calls made so far, latest first *)
}.

Inductive HookEvent : Type :=
  | Render (canExit : Fn)                (* the component renders again *)
  | Press (navigationRef : NavigationHost)  (* 'hardwareBackPress' *)
  | Unmount.

(** First render and its effects.  On iOS the hook returns before any hook
    call: there is no memory at all. *)
Definition useBackButtonHandler_mount (os : string) (canExit : Fn)
    : option BackButtonHook :=
  if String.eqb os "ios" then None
  else
    Some {| canExitRef := canExit;       (* useRef(canExit), then the effect *)
            canExitDeps := canExit;
            subscribed := true;
            backHandlerCalls := [AddEventListener] |}.

(** One event.  The second component is what [BackHandler] gets back from
    the listener, when the event is a press and the listener is there. *)
Definition useBackButtonHandler_step (heap : FnHeap) (h : BackButtonHook)
    (ev : HookEvent)
    : BackButtonHook * option (Completion (bool * list Call)) :=
  match ev with
  | Render canExit =>
      (* useRef keeps its object; the effect on [canExit] runs when the
         reference changed; the effect on [] does not run again *)
      if Nat.eqb (canExitDeps h) canExit then (h, None)
      else ({| canExitRef := canExit;
               canExitDeps := canExit;
               subscribed := subscribed h;
               backHandlerCalls := backHandlerCalls h |}, None)
  | Press navigationRef =>
      if subscribed h
      then (h, Some (onBackPress (heap (canExitRef h)) navigationRef))
      else (h, None)
  | Unmount =>
      ({| canExitRef := canExitRef h;
          canExitDeps := canExitDeps h;
          subscribed := false;
          backHandlerCalls := RemoveEventListener :: backHandlerCalls h |}, None)
  end.

Fixpoint useBackButtonHandler_run (heap : FnHeap) (h : BackButtonHook)
    (evs : list HookEvent)
    : BackButtonHook * list (Completion (bool * list Call)) :=
  match evs with
  | [] => (h, [])
  | ev :: evs' =>
      let '(h1, out) := useBackButtonHandler_step heap h ev in
      let '(h2, outs) := useBackButtonHandler_run heap h1 evs' in
      (h2, match out with Some o => o :: outs | None => outs end)
  end.

(** *** Navigation persistence *)

(** [navigationRestoredDefaultState]; [PersistNavigationConfig] is a string
    literal type, [__DEV__] the build flag. *)
Definition navigationRestoredDefaultState (persistNavigation : string)
    (__DEV__ : bool) : bool :=
  if String.eqb persistNavigation "always" then false
  else if String.eqb persistNavigation "dev" && __DEV__ then false
  else if String.eqb persistNavigation "prod" && negb __DEV__ then false
  else true.

(** How [await storage.getItem(persistenceKey, 'object')] ends. *)
Inductive ReadOutcome : Type :=
  | Found (stored : NavigationState)   (* a truthy value *)
  | Absent                             (* null or undefined *)
  | Rejected.                          (* the promise rejects *)

(** The memory of [useNavigationPersistence] in one component instance. *)
Record Persistence : Type := {
  initialNavigationState : option NavigationState;  (* undefined at first *)
  isRestored : bool;
  isMounted : bool;                (* useIsMounted()() *)
  pendingReads : nat;              (* getItem calls not settled yet *)
  readsIssued : nat;               (* getItem calls made so far *)
  effectDeps : option bool         (* [isRestored] of the last effect run *)
}.

(** [restoreState], up to its [await]. *)
Definition restoreState_begin (p : Persistence) : Persistence :=
  {| initialNavigationState := initialNavigationState p;
     isRestored := isRestored p;
     isMounted := isMounted p;
     pendingReads := S (pendingReads p);
     readsIssued := S (readsIssued p);
     effectDeps := effectDeps p |}.

(** The effect [if (!isRestored && __DEV__) restoreState()], run after a
    render when [isRestored] is not the value of its last run. *)
Definition persistenceEffect (__DEV__ : bool) (p : Persistence) : Persistence :=
  if decide (effectDeps p = Some (isRestored p)) then p
  else
    let p' := {| initialNavigationState := initialNavigationState p;
                 isRestored := isRestored p;
                 isMounted := isMounted p;
                 pendingReads := pendingReads p;
                 readsIssued := readsIssued p;
                 effectDeps := Some (isRestored p) |} in
    if negb (isRestored p) && __DEV__ then restoreState_begin p' else p'.

(** First render ([useState] initial values) and its effect. *)
Definition useNavigationPersistence_mount (persistNavigation : string)
    (__DEV__ : bool) : Persistence :=
  let initNavState := navigationRestoredDefaultState persistNavigation __DEV__ in
  persistenceEffect __DEV__
    {| initialNavigationState := None;
       isRestored := initNavState;
       isMounted := true;
       pendingReads := 0;
       readsIssued := 0;
       effectDeps := None |}.

(** [restoreState] after its [await]: the [try] block, then [finally].
    The second component tells whether the promise of [restoreState]
    rejects (there is no [catch]). *)
Definition restoreState_settle (outcome : ReadOutcome) (p : Persistence)
    : Persistence * bool :=
  let afterTry :=
    match outcome with
    | Found stored => Some stored          (* setInitialNavigationState(state) *)
    | Absent | Rejected => initialNavigationState p
    end in
  let afterFinally := if isMounted p then true else isRestored p in
  ({| initialNavigationState := afterTry;
      isRestored := afterFinally;
      isMounted := isMounted p;
      pendingReads := pred (pendingReads p);
      readsIssued := readsIssued p;
      effectDeps := effectDeps p |},
   match outcome with Rejected => true | _ => false end).

Inductive PersistenceEvent : Type :=
  | ReadSettles (outcome : ReadOutcome)   (* a pending getItem settles *)
  | Rerender                              (* the component renders again *)
  | Unmounts.

Definition useNavigationPersistence_step (__DEV__ : bool) (p : Persistence)
    (ev : PersistenceEvent) : Persistence :=
  match ev with
  | ReadSettles outcome =>
      match pendingReads p with
      | O => p
      | S _ =>
          (* the state updates schedule a render, whose effect then runs *)
          let p' := fst (restoreState_settle outcome p) in
          if isMounted p' then persistenceEffect __DEV__ p' else p'
      end
  | Rerender =>
      if isMounted p then persistenceEffect __DEV__ p else p
  | Unmounts =>
      {| initialNavigationState := initialNavigationState p;
         isRestored := isRestored p;
         isMounted := false;
         pendingReads := pendingReads p;
         readsIssued := readsIssued p;
         effectDeps := effectDeps p |}
  end.

Definition useNavigationPersistence_run (__DEV__ : bool) (p : Persistence)
    (evs : list PersistenceEvent) : Persistence :=
  foldl (useNavigationPersistence_step __DEV__) p evs.

(** The restore policy table as the specification words it: ['always']
    restores in every build, ['dev'] only in development builds, ['prod']
    only in production builds, any other value never. *)
Definition specRestores (policy : string) (isDev : bool) : bool :=
  if String.eqb policy "always" then true
  else if String.eqb policy "dev" then isDev
  else if String.eqb policy "prod" then negb isDev
  else false.

(** *** The [RootNavigation] handle *)

(** What a call without a [return] statement, or with one, gives back. *)
Inductive JsResult : Type :=
  | Undefined
  | Boolean (b : bool).

(** [canGoBack]: the answer of the host is computed and dropped; the
    function body has no [return]. *)
Definition canGoBack (navigationRef : NavigationHost) : JsResult :=
  if isReady navigationRef
  then let _ := hostCanGoBack navigationRef in Undefined
  else Undefined.

(** [goBack], the sibling that does use the answer of the host. *)
Definition goBack (navigationRef : NavigationHost) : list Call :=
  if isReady navigationRef && hostCanGoBack navigationRef
  then [HostGoBack] else [].

(** *** [onNavigationStateChange] *)

(** What [onNavigationStateChange] reads and writes: the ref of the hook
    and the two collaborators it calls. *)
Record Observer : Type := {
  routeNameRef : option string;     (* routeNameRef.current; undefined at first *)
  consoleLog : list string;         (* console.log calls, latest first *)
  setItemCalls : list (string * NavigationState)
                                    (* storage.setItem calls, latest first *)
}.

(** [useRef<string | undefined>()], nothing logged or written yet. *)
Definition observer_mount : Observer :=
  {| routeNameRef := None; consoleLog := []; setItemCalls := [] |}.

(** [onNavigationStateChange].  The navigation container reports a state
    or [undefined]; [getActiveRouteName(undefined)] raises on
    [state.routes], as it does on a state that selects no route.  The
    result of [storage.setItem] is dropped. *)
Definition onNavigationStateChange (__DEV__ : bool) (persistenceKey : string)
    (o : Observer) (state : option NavigationState) : Completion Observer :=
  let previousRouteName := routeNameRef o in
  match state with
  | None => Throw TypeError
  | Some reported =>
      match getActiveRouteName reported with
      | Throw e => Throw e
      | Return currentRouteName =>
          let logged :=
            if negb (bool_decide (previousRouteName = Some currentRouteName))
            then (if __DEV__ then currentRouteName :: consoleLog o
                  else consoleLog o)
            else consoleLog o in
          Return {| routeNameRef := Some currentRouteName;
                    consoleLog := logged;
                    setItemCalls := (persistenceKey, reported) :: setItemCalls o |}
      end
  end.

(** The observer after a report: an exception is raised before anything is
    written, so it leaves the observer as it was. *)
Definition observe (__DEV__ : bool) (persistenceKey : string) (o : Observer)
    (state : option NavigationState) : Observer :=
  match onNavigationStateChange __DEV__ persistenceKey o state with
  | Return o' => o'
  | Throw _ => o
  end.

Definition observe_all (__DEV__ : bool) (persistenceKey : string) (o : Observer)
    (states : list (option NavigationState)) : Observer :=
  foldl (observe __DEV__ persistenceKey) o states.

(** The active route name of a reported state, when it has one. *)
Definition activeName (state : option NavigationState) : option string :=
  match state with
  | Some s => match getActiveRouteName s with Return n => Some n | Throw _ => None end
  | None => None
  end.

(** The reported state as written to storage, when the report gets as far
    as the write. *)
Definition persistable (state : option NavigationState)
    : option NavigationState :=
  match state, activeName state with
  | Some s, Some _ => Some s
  | _, _ => None
  end.

(** The names a listener of route changes would see: each name that is
    not the one before it. *)
Fixpoint routeChanges (previous : option string) (names : list string)
    : list string :=
  match names with
  | [] => []
  | n :: names' =>
      if bool_decide (previous = Some n) then routeChanges (Some n) names'
      else n :: routeChanges (Some n) names'
  end.

(** *** The default state of [resetRoot] *)

(** The default value of the parameter of [resetRoot]:
    [{ index: 0, routes: [] }]. *)
Definition resetRoot_default : NavigationState := MkState (Some 0) [].

(** *** Reference readings of the hooks, for the properties below *)

(** The answers a listener gives when every press consults the predicate
    of the latest render, until the component unmounts. *)
Fixpoint latestAnswers (heap : FnHeap) (current : Fn) (evs : list HookEvent)
    : list (Completion (bool * list Call)) :=
  match evs with
  | [] => []
  | Render canExit :: evs' => latestAnswers heap canExit evs'
  | Press nav :: evs' =>
      onBackPress (heap current) nav :: latestAnswers heap current evs'
  | Unmount :: _ => []
  end.

Definition isUnmount (ev : HookEvent) : bool :=
  match ev with
  | Unmount => true
  | _ => false
  end.

Definition isUnmounts (ev : PersistenceEvent) : bool :=
  match ev with
  | Unmounts => true
  | _ => false
  end.

Definition isFound (ev : PersistenceEvent) : bool :=
  match ev with
  | ReadSettles (Found _) => true
  | _ => false
  end.

(** A failed read in place of every read that found nothing. *)
Definition absentAsRejected (ev : PersistenceEvent) : PersistenceEvent :=
  match ev with
  | ReadSettles Absent => ReadSettles Rejected
  | _ => ev
  end.

(** *** Invariants of the persistence hook *)

(** While mounted, the effect has run on the current [isRestored]. *)
Definition effect_settled (p : Persistence) : Prop :=
  isMounted p = true -> effectDeps p = Some (isRestored p).

(** While the component is mounted in a development build, either the
    flag is set or the read of the mount effect is pending. *)
Definition awaiting (p : Persistence) : Prop :=
  isMounted p = true /\ effectDeps p = Some (isRestored p) /\
  (isRestored p = true \/ exists k, pendingReads p = S k).

(** *** Values for the examples, and the invariant of the hook *)

(** A host that is ready, on the example state. *)
Definition exampleHost (answer : bool) : NavigationHost :=
  {| isReady := true; getRootState := exampleState; hostCanGoBack := answer |}.

(** Two predicates: 0 lets no route exit, 1 lets ["Settings"] exit. *)
Definition exampleHeap : FnHeap :=
  fun f routeName =>
    match f with
    | O => false
    | _ => String.eqb routeName "Settings"
    end.

(** The hook as mounted on Android with predicate 0. *)
Definition androidHook : BackButtonHook :=
  {| canExitRef := 0%nat; canExitDeps := 0%nat; subscribed := true;
     backHandlerCalls := [AddEventListener] |}.

(** While the component is mounted, the ref holds the predicate of the
    last render and the listener stays. *)
Definition hook_ok (h : BackButtonHook) : Prop :=
  canExitRef h = canExitDeps h /\ subscribed h = true.

End Navigation.

(** ** The bottom sheet of the login screen ([BottomUpAnimation]) *)

Module BottomSheet.

(** *** Shared values and animations (react-native-reanimated) *)

(** The animation objects the component creates.  Durations and frame
    times are whole milliseconds.  A spring object is advanced frame by
    frame and keeps its own state from one frame to the next: it is
    modelled with the frame intervals it has seen, latest first;
    [withSpring(v)] in the source is [withSpring v []]. *)
Inductive Animation : Type :=
  | withTiming (toValue : float) (duration : nat)
  | withSpring (toValue : float) (seen : list nat).

Definition toValue (a : Animation) : float :=
  match a with
  | withTiming v _ => v
  | withSpring v _ => v
  end.

(** The animation object after a frame [dt] ms after the previous one. *)
Definition seeFrame (dt : nat) (a : Animation) : Animation :=
  match a with
  | withTiming v d => withTiming v d
  | withSpring v seen => withSpring v (dt :: seen)
  end.

(** An animation in progress on a shared value. *)
Record Running : Type := {
  animation : Animation;
  from : float;        (* the value when the animation was assigned *)
  elapsed : nat        (* milliseconds run so far *)
}.

Record SharedValue : Type := {
  ref : nat;           (* identity of the object [useSharedValue] returned *)
  value : float;       (* [.value] as read *)
  running : option Running
}.

(** [sv.value = x] for a number [x]: the write replaces the value and
    drops the animation in progress. *)
Definition assign (x : float) (sv : SharedValue) : SharedValue :=
  {| ref := ref sv; value := x; running := None |}.

(** [sv.value = a] for an animation object [a]: the animation in progress
    is dropped; when the value already is the target of [a] (as [===]
    compares numbers) nothing starts, otherwise [a] starts from the current
    value. *)
Definition animate (a : Animation) (sv : SharedValue) : SharedValue :=
  {| ref := ref sv;
     value := value sv;
     running := if (value sv =? toValue a)%float then None
                else Some {| animation := a; from := value sv; elapsed := 0 |} |}.

(** The animation library: the value of the animation object [a] started
    at [from], at the frame [t] ms after its start, or [None] when it is
    over at that frame (the shared value then holds [toValue a]).  A timing
    object carries no state, so its value depends on the time alone; a
    spring object carries the frames it has seen, so its value may depend
    on every one of them.  The library is not part of the repository: the
    component is modelled for any such driver. *)
Definition Driver : Type := Animation -> float -> nat -> option float.

(** An animation frame, [dt] ms after the previous one. *)
Definition advance (driver : Driver) (dt : nat) (sv : SharedValue) : SharedValue :=
  match running sv with
  | None => sv
  | Some r =>
      let t := (elapsed r + dt)%nat in
      let a := seeFrame dt (animation r) in
      match driver a (from r) t with
      | Some v =>
          {| ref := ref sv; value := v;
             running := Some {| animation := a; from := from r; elapsed := t |} |}
      | None =>
          {| ref := ref sv; value := toValue (animation r); running := None |}
      end
  end.

(** *** The component *)

Record Sheet : Type := {
  translateY : SharedValue;
  scale : SharedValue;
  startY : option float;        (* ctx.startY; the context starts empty *)
  entranceDeps : option (list nat)  (* [translateY] of the last effect run *)
}.

(** [ctx.startY + x]; a missing property reads [undefined], and
    [undefined + x] is [NaN]. *)
Definition startY_plus (ctx_startY : option float) (x : float) : float :=
  match ctx_startY with
  | Some s => (s + x)%float
  | None => nan
  end.

(** The body of the effect:
    [translateY.value = 300; translateY.value = withTiming(0, { duration: 1000 })] *)
Definition entrance (c : Sheet) : Sheet :=
  {| translateY := animate (withTiming 0 1000) (assign 300 (translateY c));
     scale := scale c;
     startY := startY c;
     entranceDeps := entranceDeps c |}.

(** After a render: the effect runs when its dependency list
    [[translateY]] is not the one of its last run. *)
Definition commit (c : Sheet) : Sheet :=
  let deps := [ref (translateY c)] in
  if decide (entranceDeps c = Some deps) then c
  else
    entrance {| translateY := translateY c;
                scale := scale c;
                startY := startY c;
                entranceDeps := Some deps |}.

(** First render: [useSharedValue(0)], [useSharedValue(1)], an empty
    gesture context; then the effect. *)
Definition mount : Sheet :=
  commit {| translateY := {| ref := 0; value := 0; running := None |};
            scale := {| ref := 1; value := 1; running := None |};
            startY := None;
            entranceDeps := None |}.

(** [onStart: (_, ctx) => { ctx.startY = translateY.value }] *)
Definition onStart (c : Sheet) : Sheet :=
  {| translateY := translateY c;
     scale := scale c;
     startY := Some (value (translateY c));
     entranceDeps := entranceDeps c |}.

(** [onActive]: [event.translationY] is the translation accumulated since
    the gesture began. *)
Definition onActive (translationY : float) (c : Sheet) : Sheet :=
  {| translateY := assign (startY_plus (startY c) translationY) (translateY c);
     scale := assign (if (0 <? translationY)%float
                      then (1 - translationY / 1000)%float
                      else 1%float) (scale c);
     startY := startY c;
     entranceDeps := entranceDeps c |}.

(** [onEnd] *)
Definition onEnd (c : Sheet) : Sheet :=
  {| translateY := animate (withSpring 0 []) (translateY c);
     scale := animate (withSpring 1 []) (scale c);
     startY := startY c;
     entranceDeps := entranceDeps c |}.

Definition frame (driver : Driver) (dt : nat) (c : Sheet) : Sheet :=
  {| translateY := advance driver dt (translateY c);
     scale := advance driver dt (scale c);
     startY := startY c;
     entranceDeps := entranceDeps c |}.

Inductive Event : Type :=
  | Rerender                         (* the component function runs again *)
  | Start                            (* gesture begins *)
  | Active (translationY : float)    (* gesture moves *)
  | End                              (* gesture is released *)
  | Frame (dt : nat).                (* animation frame *)

Definition step (driver : Driver) (c : Sheet) (ev : Event) : Sheet :=
  match ev with
  | Rerender => commit c
  | Start => onStart c
  | Active translationY => onActive translationY c
  | End => onEnd c
  | Frame dt => frame driver dt c
  end.

Definition run (driver : Driver) (c : Sheet) (evs : list Event) : Sheet :=
  foldl (step driver) c evs.

(** Events that come from no gesture handler: renders and frames. *)
Definition passive (ev : Event) : bool :=
  match ev with
  | Rerender | Frame _ => true
  | _ => false
  end.

(** Events between the start of a gesture and its release. *)
Definition dragging (ev : Event) : bool :=
  match ev with
  | Rerender | Frame _ | Active _ => true
  | _ => false
  end.

Definition frameTime (ev : Event) : nat :=
  match ev with
  | Frame dt => dt
  | _ => 0
  end.

(** Milliseconds of animation time in a list of events. *)
Definition duration_of (evs : list Event) : nat :=
  foldr (fun ev t => (frameTime ev + t)%nat) 0%nat evs.

(** *** The style of the sheet *)

Inductive Transform : Type :=
  | TranslateY (v : float)
  | ScaleX (v : float)
  | ScaleY (v : float).

(** [animatedStyle]: the [transform] list of the animated view. *)
Definition animatedStyle (c : Sheet) : list Transform :=
  [TranslateY (value (translateY c));
   ScaleX (value (scale c));
   ScaleY (value (scale c))].

(** The dependency list recorded is the one a render computes. *)
Definition mounted (c : Sheet) : Prop :=
  entranceDeps c = Some [ref (translateY c)].

Definition isFrame (ev : Event) : bool :=
  match ev with
  | Frame _ => true
  | _ => false
  end.

(** [translateY] during the entrance, [t] ms after mount: as mounted
    while no frame has been drawn; then on the curve of the timing
    animation until its 1000 ms have passed, and at 0 afterwards. *)
Definition entering (driver : Driver) (drawn : bool) (t : nat) (sv : SharedValue)
    : Prop :=
  if drawn then
    ref sv = 0%nat /\
    (((t < 1000)%nat /\
      running sv = Some {| animation := withTiming 0 1000; from := 300; elapsed := t |} /\
      driver (withTiming 0 1000) 300%float t = Some (value sv))
     \/ ((1000 <= t)%nat /\ running sv = None /\ value sv = 0%float))
  else t = 0%nat /\ sv = translateY mount.

(** What the entrance relies on from the animation library.  A timing
    animation lasts for its duration, stays between its two ends and moves
    in one direction.  Nothing is assumed of springs. *)
Record DriverContract (driver : Driver) : Prop := {
  timing_runs : forall v d x t,
      (t < d)%nat -> is_Some (driver (withTiming v d) x t);
  timing_ends : forall v d x t,
      (d <= t)%nat -> driver (withTiming v d) x t = None;
  timing_descends : forall v d x t1 t2 y1 y2,
      (v <=? x)%float = true ->
      (t1 <= t2)%nat ->
      driver (withTiming v d) x t1 = Some y1 ->
      driver (withTiming v d) x t2 = Some y2 ->
      (y2 <=? y1)%float = true /\ (y1 <=? x)%float = true /\ (v <=? y2)%float = true
}.

(** A driver that meets the contract, for the examples: a timing
    animation holds its start value until its duration has passed; a
    spring holds its start value (no example draws a frame of a spring). *)
Definition stepDriver : Driver :=
  fun a x t =>
    match a with
    | withTiming _ d => if (t <? d)%nat then Some x else None
    | withSpring _ _ => Some x
    end.

End BottomSheet.

(** * Properties of the navigation helpers *)

Module NavigationSpec.
Import Navigation.

(** ** Array reads *)

Lemma js_get_None {A} (l : list A) (i : Z) :
  js_get l i = None <-> i < 0 \/ Z.of_nat (length l) <= i.
Proof.
  unfold js_get. destruct (Z.ltb_spec i 0) as [Hneg|Hpos].
  - split; [intros _; lia | done].
  - rewrite lookup_ge_None. lia.
Qed.

Lemma js_get_nil {A} (i : Z) : js_get (@nil A) i = None.
Proof. apply js_get_None. simpl. lia. Qed.

(** ** [getActiveRouteName] in the shape of its source *)

Lemma getActiveRouteName_eq (s : NavigationState) :
  getActiveRouteName s = afterLookup (selectedRoute s).
Proof.
  destruct s as [idx rs]. unfold selectedRoute, js_get. simpl.
  destruct (default 0 idx <? 0); [done|].
  generalize (Z.to_nat (default 0 idx)) as i.
  induction rs as [|[n [nested|]] rs IH]; intros [|i]; simpl; auto.
Qed.

Lemma activeDepth_nested (s : NavigationState) n nested :
  selectedRoute s = Some (MkRoute n (Some nested)) ->
  activeDepth s = S (activeDepth nested).
Proof.
  destruct s as [idx rs]. unfold selectedRoute, js_get. simpl.
  destruct (default 0 idx <? 0); [done|].
  generalize (Z.to_nat (default 0 idx)) as i.
  induction rs as [|[m [st|]] rs IH]; intros [|i]; simpl; try done.
  - intros [= _ ->]. done.
  - apply IH.
  - apply IH.
Qed.

(** Induction along the selected path. *)
Lemma selected_path_ind (P : NavigationState -> Prop) :
  (forall s,
      (forall n nested,
          selectedRoute s = Some (MkRoute n (Some nested)) -> P nested) ->
      P s) ->
  forall s, P s.
Proof.
  intros step s.
  remember (activeDepth s) as d eqn:Hd.
  revert s Hd. induction d as [|d IH]; intros s Hd; apply step; intros n nested Hsel.
  - rewrite (activeDepth_nested _ _ _ Hsel) in Hd. discriminate.
  - apply IH. rewrite (activeDepth_nested _ _ _ Hsel) in Hd. congruence.
Qed.

Lemma getActiveRouteName_leaf s n :
  selectedRoute s = Some (MkRoute n None) ->
  getActiveRouteName s = Return n.
Proof. intros H. rewrite getActiveRouteName_eq, H. done. Qed.

Lemma getActiveRouteName_nested s n nested :
  selectedRoute s = Some (MkRoute n (Some nested)) ->
  getActiveRouteName s = getActiveRouteName nested.
Proof. intros H. rewrite getActiveRouteName_eq, H. done. Qed.

Lemma getActiveRouteName_undefined s :
  selectedRoute s = None ->
  getActiveRouteName s = Throw TypeError.
Proof. intros H. rewrite getActiveRouteName_eq, H. done. Qed.

Lemma getActiveRouteName_ActiveLeaf s leaf :
  getActiveRouteName s = Return leaf <-> ActiveLeaf s leaf.
Proof.
  split.
  - revert leaf. induction s as [s IH] using selected_path_ind. intros leaf.
    rewrite getActiveRouteName_eq.
    destruct (selectedRoute s) as [[n [nested|]]|] eqn:Hsel; simpl.
    + intros H. eapply active_nested; eauto.
    + intros [= ->]. by apply active_here.
    + done.
  - induction 1 as [s n H|s n nested leaf H _ IH].
    + by apply getActiveRouteName_leaf.
    + by rewrite (getActiveRouteName_nested _ _ _ H).
Qed.

Lemma getActiveRouteName_Selectable s :
  Selectable s <-> exists leaf, getActiveRouteName s = Return leaf.
Proof.
  split.
  - induction 1 as [s n H|s n nested H _ [leaf IH]].
    + exists n. by apply getActiveRouteName_leaf.
    + exists leaf. by rewrite (getActiveRouteName_nested _ _ _ H).
  - induction s as [s IH] using selected_path_ind. intros [leaf Hleaf].
    rewrite getActiveRouteName_eq in Hleaf.
    destruct (selectedRoute s) as [[n [nested|]]|] eqn:Hsel; simpl in Hleaf.
    + eapply selectable_nested; eauto.
    + by eapply selectable_leaf.
    + done.
Qed.

Lemma getActiveRouteName_Dangling s :
  Dangling s <-> getActiveRouteName s = Throw TypeError.
Proof.
  split.
  - induction 1 as [s H|s n nested H _ IH].
    + by apply getActiveRouteName_undefined.
    + by rewrite (getActiveRouteName_nested _ _ _ H).
  - induction s as [s IH] using selected_path_ind. intros Hthrow.
    rewrite getActiveRouteName_eq in Hthrow.
    destruct (selectedRoute s) as [[n [nested|]]|] eqn:Hsel; simpl in Hthrow.
    + eapply dangling_nested; eauto.
    + done.
    + by apply dangling_here.
Qed.

(** C6. On a state whose selected route has no nested state,
    [getActiveRouteName] returns the name of that route; on a state whose
    selected route has a nested state it is the result of the call on the
    nested state, so that it returns exactly the deepest selected leaf;
    on the example state of the specification it returns ["Settings"]. *)
Theorem getActiveRouteName_deepest_leaf :
  (forall s n,
      selectedRoute s = Some (MkRoute n None) ->
      getActiveRouteName s = Return n) /\
  (forall s n nested,
      selectedRoute s = Some (MkRoute n (Some nested)) ->
      getActiveRouteName s = getActiveRouteName nested) /\
  (forall s leaf, getActiveRouteName s = Return leaf <-> ActiveLeaf s leaf) /\
  getActiveRouteName exampleState = Return "Settings".
Proof.
  split; [exact getActiveRouteName_leaf|].
  split; [exact getActiveRouteName_nested|].
  split; [exact getActiveRouteName_ActiveLeaf|].
  reflexivity.
Qed.

(** The example, through the two rules: the root selects ["Tab"], whose
    nested state selects ["Settings"]. *)
Lemma getActiveRouteName_example_steps :
  getActiveRouteName exampleState
  = getActiveRouteName
      (MkState (Some 1) [MkRoute "Home" None; MkRoute "Settings" None])
  /\ getActiveRouteName
       (MkState (Some 1) [MkRoute "Home" None; MkRoute "Settings" None])
     = Return "Settings"
  /\ ActiveLeaf exampleState "Settings".
Proof.
  destruct getActiveRouteName_deepest_leaf as (Hleaf & Hnested & Hiff & Hex).
  split; [|split].
  - apply (Hnested exampleState "Tab"). reflexivity.
  - apply Hleaf. reflexivity.
  - apply Hiff. exact Hex.
Defined.

(** C10. [getActiveRouteName] returns a name exactly when, at every level
    it reaches, the index (0 when absent) selects an entry of [routes]; a
    level selects nothing exactly when its index is negative or not below
    the length of [routes], which is the case of every index on an empty
    [routes]; and when some reached level selects nothing the call raises a
    [TypeError] instead of returning. *)
Theorem getActiveRouteName_total_iff_selectable (s : NavigationState) :
  (Selectable s <-> exists leaf, getActiveRouteName s = Return leaf) /\
  (Dangling s <-> getActiveRouteName s = Throw TypeError) /\
  (selectedRoute s = None <->
     default 0 (index s) < 0 \/
     Z.of_nat (length (routes s)) <= default 0 (index s)) /\
  (routes s = [] -> selectedRoute s = None).
Proof.
  split; [apply getActiveRouteName_Selectable|].
  split; [apply getActiveRouteName_Dangling|].
  split; [apply js_get_None|].
  unfold selectedRoute. intros ->. apply js_get_nil.
Qed.

(** Faults of [getActiveRouteName]: an empty [routes] (the default of
    [resetRoot]), an index past the end, a negative index, and an empty
    [routes] below a selected route. *)
Lemma getActiveRouteName_faults :
  getActiveRouteName (MkState (Some 0) []) = Throw TypeError
  /\ getActiveRouteName (MkState None []) = Throw TypeError
  /\ getActiveRouteName (MkState (Some 2) [MkRoute "Home" None; MkRoute "Settings" None])
     = Throw TypeError
  /\ getActiveRouteName (MkState (Some (-1)) [MkRoute "Home" None]) = Throw TypeError
  /\ getActiveRouteName (MkState None [MkRoute "Tab" (Some (MkState (Some 0) []))])
     = Throw TypeError.
Proof.
  pose proof (getActiveRouteName_total_iff_selectable (MkState (Some 0) []))
    as (_ & Hdangling & _ & Hempty).
  split; [apply Hdangling, dangling_here, Hempty; reflexivity|].
  repeat split; reflexivity.
Defined.

(** ** The hardware back button *)

(** C7. When the host is ready and the active route has name [routeName]:
    if the exit predicate accepts [routeName] the application is exited
    and the press is reported handled; if it refuses and the host can go
    back, the host goes back and the press is reported handled; if it
    refuses and the host cannot go back, nothing is called and the press is
    reported not handled. *)
Theorem onBackPress_cases (canExit : string -> bool) (nav : NavigationHost)
    (routeName : string) :
  isReady nav = true ->
  getActiveRouteName (getRootState nav) = Return routeName ->
  (canExit routeName = true ->
     onBackPress canExit nav = Return (true, [ExitApp])) /\
  (canExit routeName = false -> hostCanGoBack nav = true ->
     onBackPress canExit nav = Return (true, [HostGoBack])) /\
  (canExit routeName = false -> hostCanGoBack nav = false ->
     onBackPress canExit nav = Return (false, [])).
Proof.
  intros Hready Hname. unfold onBackPress. rewrite Hready, Hname. simpl.
  repeat split.
  - intros ->. done.
  - intros -> ->. done.
  - intros -> ->. done.
Qed.

Lemma onBackPress_cases_example :
  onBackPress (String.eqb "Settings") (exampleHost false) = Return (true, [ExitApp])
  /\ onBackPress (String.eqb "Home") (exampleHost true) = Return (true, [HostGoBack])
  /\ onBackPress (String.eqb "Home") (exampleHost false) = Return (false, []).
Proof.
  split; [|split].
  - apply (onBackPress_cases (String.eqb "Settings") (exampleHost false) "Settings");
      reflexivity.
  - apply (onBackPress_cases (String.eqb "Home") (exampleHost true) "Settings");
      reflexivity.
  - apply (onBackPress_cases (String.eqb "Home") (exampleHost false) "Settings");
      reflexivity.
Defined.

(** A press while the host is not ready, or while the root state selects no
    route, is outside the three cases. *)
Lemma onBackPress_not_ready canExit nav :
  isReady nav = false -> onBackPress canExit nav = Return (false, []).
Proof. intros H. unfold onBackPress. by rewrite H. Qed.

(** When the root state selects no route, the handler raises before the
    predicate is asked. *)
Lemma onBackPress_no_route canExit nav :
  isReady nav = true ->
  selectedRoute (getRootState nav) = None ->
  onBackPress canExit nav = Throw TypeError.
Proof.
  intros Hready Hsel. unfold onBackPress.
  by rewrite Hready, (getActiveRouteName_undefined _ Hsel).
Qed.

(** ** The exit predicate of [useBackButtonHandler] *)

Lemma hook_ok_mount os canExit h :
  useBackButtonHandler_mount os canExit = Some h -> hook_ok h.
Proof.
  unfold useBackButtonHandler_mount. destruct (String.eqb os "ios"); [done|].
  intros [= <-]. done.
Qed.

Lemma render_sets_ref heap h canExit :
  hook_ok h ->
  let h' := fst (useBackButtonHandler_step heap h (Render canExit)) in
  hook_ok h' /\ canExitRef h' = canExit /\
  backHandlerCalls h' = backHandlerCalls h.
Proof.
  intros [Href Hsub]. simpl.
  destruct (Nat.eqb_spec (canExitDeps h) canExit) as [Heq|Hne]; simpl.
  - repeat split; congruence.
  - done.
Qed.

Lemma renders_set_ref heap canExits : forall h canExit,
  hook_ok h ->
  let h' := fst (useBackButtonHandler_run heap h
                   (map Render (canExits ++ [canExit]))) in
  hook_ok h' /\ canExitRef h' = canExit /\
  backHandlerCalls h' = backHandlerCalls h.
Proof.
  induction canExits as [|p ps IH]; intros h canExit Hok.
  - pose proof (render_sets_ref heap h canExit Hok) as H. simpl in *.
    destruct (Nat.eqb (canExitDeps h) canExit); exact H.
  - pose proof (render_sets_ref heap h p Hok) as (Hok1 & _ & Hcalls1).
    specialize (IH _ canExit Hok1). cbn zeta in IH.
    rewrite <- Hcalls1.
    change (map Render ((p :: ps) ++ [canExit]))
      with (Render p :: map Render (ps ++ [canExit])).
    cbn [useBackButtonHandler_run].
    destruct (useBackButtonHandler_step heap h (Render p)) as [h1 o1] eqn:E1.
    assert (o1 = None) as ->.
    { simpl in E1. destruct (Nat.eqb (canExitDeps h) p); by inversion E1. }
    simpl in IH |- *.
    destruct (useBackButtonHandler_run heap h1 (map Render (ps ++ [canExit])))
      as [h2 outs]. exact IH.
Qed.

(** C8. On a platform with a back button, after a first press, any
    renders that replace the exit predicate, the last of them with
    [newest], the second press is answered with [newest]; between the two
    presses [BackHandler] receives no call: the listener added at mount is
    still the one subscribed. *)
Theorem second_press_uses_newest_predicate (heap : FnHeap) (os : string)
    (first : Fn) (h : BackButtonHook) (nav1 nav2 : NavigationHost)
    (replacements : list Fn) (newest : Fn) :
  useBackButtonHandler_mount os first = Some h ->
  let after1 := useBackButtonHandler_step heap h (Press nav1) in
  let rendered :=
    fst (useBackButtonHandler_run heap (fst after1)
           (map Render (replacements ++ [newest]))) in
  let after2 := useBackButtonHandler_step heap rendered (Press nav2) in
  snd after1 = Some (onBackPress (heap first) nav1) /\
  snd after2 = Some (onBackPress (heap newest) nav2) /\
  backHandlerCalls (fst after2) = [AddEventListener] /\
  subscribed (fst after2) = true.
Proof.
  intros Hmount. pose proof (hook_ok_mount _ _ _ Hmount) as Hok.
  assert (canExitRef h = first /\ backHandlerCalls h = [AddEventListener])
    as [Hfirst Hcalls].
  { unfold useBackButtonHandler_mount in Hmount.
    destruct (String.eqb os "ios"); [done|]. by inversion Hmount. }
  destruct Hok as [Href Hsub].
  cbn zeta. cbn [useBackButtonHandler_step]. rewrite Hsub. cbn [fst snd].
  pose proof (renders_set_ref heap replacements h newest (conj Href Hsub))
    as ((_ & Hsub') & Hnew & Hcalls').
  cbn zeta in Hsub', Hnew, Hcalls'.
  rewrite Hsub'. cbn [fst snd]. rewrite Hnew, Hcalls', Hcalls, Hfirst. done.
Qed.

Lemma second_press_uses_newest_predicate_example :
  useBackButtonHandler_mount "android" 0%nat = Some androidHook
  /\ useBackButtonHandler_run exampleHeap androidHook
       [Press (exampleHost false); Render 1%nat; Press (exampleHost false)]
     = ({| canExitRef := 1%nat; canExitDeps := 1%nat; subscribed := true;
           backHandlerCalls := [AddEventListener] |},
        [Return (false, []); Return (true, [ExitApp])])
  /\ snd (useBackButtonHandler_step exampleHeap
            (fst (useBackButtonHandler_run exampleHeap androidHook
                    (map Render ([] ++ [1%nat]))))
            (Press (exampleHost false)))
     = Some (onBackPress (exampleHeap 1%nat) (exampleHost false)).
Proof.
  split; [reflexivity|]. split; [reflexivity|].
  exact (proj1 (proj2 (second_press_uses_newest_predicate exampleHeap "android"
           0%nat androidHook (exampleHost false) (exampleHost false) [] 1%nat
           eq_refl))).
Defined.

(** On iOS the hook registers nothing. *)
Lemma useBackButtonHandler_ios canExit :
  useBackButtonHandler_mount "ios" canExit = None.
Proof. reflexivity. Qed.

(** ** [RootNavigation.canGoBack] *)

(** C9. [canGoBack] gives back [undefined] for every host, ready or not,
    whatever the host answers to [canGoBack()]: in particular it gives back
    [undefined] when the host is ready and would answer [true], so its
    result is the same for a host that can go back and one that cannot. *)
Theorem canGoBack_returns_undefined :
  (forall nav : NavigationHost, canGoBack nav = Undefined) /\
  (forall root, canGoBack {| isReady := true; getRootState := root;
                             hostCanGoBack := true |} = Undefined) /\
  (forall (nav : NavigationHost) (answer : bool), canGoBack nav <> Boolean answer) /\
  (forall nav nav' : NavigationHost, canGoBack nav = canGoBack nav').
Proof.
  assert (forall nav, canGoBack nav = Undefined) as H.
  { intros nav. unfold canGoBack. by destruct (isReady nav). }
  split; [exact H|]. split; [|split].
  - intros root. apply H.
  - intros nav answer. by rewrite H.
  - intros nav nav'. by rewrite !H.
Qed.

(** The sibling [goBack] does act on the answer of the host. *)
Lemma goBack_uses_host_answer root :
  goBack {| isReady := true; getRootState := root; hostCanGoBack := true |}
  = [HostGoBack]
  /\ goBack {| isReady := true; getRootState := root; hostCanGoBack := false |}
     = [].
Proof. done. Qed.

(** ** Navigation persistence *)

(** The helper computes the table of the specification: restoration is
    "already done" exactly where the table says no restore. *)
Lemma navigationRestoredDefaultState_table policy isDev :
  navigationRestoredDefaultState policy isDev = negb (specRestores policy isDev).
Proof.
  unfold navigationRestoredDefaultState, specRestores.
  destruct (String.eqb policy "always"); [done|].
  destruct (String.eqb_spec policy "dev") as [->|_]; [by destruct isDev|].
  destruct (String.eqb policy "prod"), isDev; done.
Qed.

(** The state after the first render and its effect. *)
Lemma useNavigationPersistence_mount_eq policy isDev :
  useNavigationPersistence_mount policy isDev
  = let reads := if specRestores policy isDev && isDev then 1%nat else 0%nat in
    {| initialNavigationState := None;
       isRestored := negb (specRestores policy isDev);
       isMounted := true;
       pendingReads := reads;
       readsIssued := reads;
       effectDeps := Some (negb (specRestores policy isDev)) |}.
Proof.
  unfold useNavigationPersistence_mount, persistenceEffect.
  rewrite navigationRestoredDefaultState_table. simpl.
  destruct (specRestores policy isDev), isDev; reflexivity.
Qed.

(** In a development build the read is made exactly where the table says
    restore. *)
Lemma development_build_follows_table policy :
  readsIssued (useNavigationPersistence_mount policy true)
  = if specRestores policy true then 1%nat else 0%nat.
Proof.
  rewrite useNavigationPersistence_mount_eq. simpl.
  by destruct (specRestores policy true).
Qed.

(** In a production build the effect starts no read, whatever the policy. *)
Lemma production_build_never_reads policy :
  readsIssued (useNavigationPersistence_mount policy false) = 0%nat
  /\ pendingReads (useNavigationPersistence_mount policy false) = 0%nat.
Proof.
  rewrite useNavigationPersistence_mount_eq. simpl.
  by rewrite andb_false_r.
Qed.

(** C1 (at the inputs where the code leaves the table).  In a production
    build, under the policies ['always'] and ['prod'], the table of the
    specification says restore and the helper agrees ([isRestored] starts
    [false]), but the effect of the hook is guarded by [__DEV__] and makes
    no read. *)
Theorem production_restore_read_missing :
  (specRestores "always" false = true
   /\ navigationRestoredDefaultState "always" false = false
   /\ readsIssued (useNavigationPersistence_mount "always" false) = 0%nat)
  /\ (specRestores "prod" false = true
      /\ navigationRestoredDefaultState "prod" false = false
      /\ readsIssued (useNavigationPersistence_mount "prod" false) = 0%nat).
Proof. repeat split; reflexivity. Qed.

(** The rows of the table in a development build, and the row of an
    unknown policy, as the code runs them. *)
Lemma restore_table_development_rows :
  readsIssued (useNavigationPersistence_mount "always" true) = 1%nat
  /\ readsIssued (useNavigationPersistence_mount "dev" true) = 1%nat
  /\ readsIssued (useNavigationPersistence_mount "prod" true) = 0%nat
  /\ readsIssued (useNavigationPersistence_mount "dev" false) = 0%nat
  /\ readsIssued (useNavigationPersistence_mount "bogus" true) = 0%nat
  /\ isRestored (useNavigationPersistence_mount "bogus" true) = true
  /\ isRestored (useNavigationPersistence_mount "prod" true) = true
  /\ isRestored (useNavigationPersistence_mount "dev" false) = true.
Proof. repeat split; reflexivity. Qed.

(** Once [__DEV__] is false, no event of the hook starts a read or sets
    the flag. *)
Lemma production_run_stuck (evs : list PersistenceEvent) : forall p,
  pendingReads p = 0%nat ->
  let p' := useNavigationPersistence_run false p evs in
  pendingReads p' = 0%nat /\ isRestored p' = isRestored p /\
  readsIssued p' = readsIssued p /\
  initialNavigationState p' = initialNavigationState p.
Proof.
  induction evs as [|ev evs IH]; intros p Hpending; [done|].
  unfold useNavigationPersistence_run in *. cbn [foldl].
  assert (pendingReads (useNavigationPersistence_step false p ev) = 0%nat
          /\ isRestored (useNavigationPersistence_step false p ev) = isRestored p
          /\ readsIssued (useNavigationPersistence_step false p ev) = readsIssued p
          /\ initialNavigationState (useNavigationPersistence_step false p ev)
             = initialNavigationState p) as (H1 & H2 & H3 & H4).
  { destruct ev as [outcome| |]; simpl.
    - by rewrite Hpending.
    - unfold persistenceEffect. rewrite andb_false_r.
      destruct (isMounted p); [|done]. by case_decide.
    - done. }
  destruct (IH _ H1) as (I1 & I2 & I3 & I4). cbn zeta in *.
  repeat split; congruence.
Qed.

(** C2 (at the input where the code leaves the claim).  In a production
    build under the policy ['always'], restoration is enabled by the
    policy, yet after any events of the hook [isRestored] is still [false],
    no read has been made and the initial state is still undefined. *)
Theorem production_isRestored_never_set (evs : list PersistenceEvent) :
  let p := useNavigationPersistence_run false
             (useNavigationPersistence_mount "always" false) evs in
  specRestores "always" false = true /\
  isRestored p = false /\ readsIssued p = 0%nat /\
  initialNavigationState p = None.
Proof.
  pose proof (production_run_stuck evs
                (useNavigationPersistence_mount "always" false) eq_refl)
    as (_ & H2 & H3 & H4).
  cbn zeta in *. rewrite H2, H3, H4. done.
Qed.

(** In a development build with restoration enabled, the flag is set when
    the read settles, however it settles, as long as the component is
    mounted; only a value found becomes the initial state. *)
Lemma development_isRestored_set policy (outcome : ReadOutcome) :
  specRestores policy true = true ->
  let p := useNavigationPersistence_mount policy true in
  let p' := useNavigationPersistence_step true p (ReadSettles outcome) in
  isRestored p = false /\ pendingReads p = 1%nat /\
  isRestored p' = true /\ pendingReads p' = 0%nat /\ readsIssued p' = 1%nat /\
  initialNavigationState p'
  = match outcome with Found stored => Some stored | _ => None end.
Proof.
  intros Hspec. cbn zeta. rewrite useNavigationPersistence_mount_eq, Hspec.
  destruct outcome; done.
Qed.

(** When the component has been unmounted before the read settles, the
    [isMounted()] guard leaves the flag as it was. *)
Lemma unmounted_isRestored_kept (outcome : ReadOutcome) :
  isRestored
    (useNavigationPersistence_run true
       (useNavigationPersistence_mount "always" true)
       [Unmounts; ReadSettles outcome]) = false.
Proof. by destruct outcome. Qed.

(** * Further properties of the navigation helpers *)

(** ** What a back press does *)

(** X1. Whenever [onBackPress] returns, it reports the press handled
    exactly when it made a call, and it makes at most one: it exits only
    when the predicate accepts the active route, and goes back only when
    the predicate refuses it and the host can go back. *)
Theorem onBackPress_handled_iff_acted (canExit : string -> bool)
    (nav : NavigationHost) (handled : bool) (calls : list Call) :
  onBackPress canExit nav = Return (handled, calls) ->
  (handled = true /\ calls = [ExitApp] /\
   exists n, getActiveRouteName (getRootState nav) = Return n /\ canExit n = true)
  \/ (handled = true /\ calls = [HostGoBack] /\ hostCanGoBack nav = true /\
      exists n, getActiveRouteName (getRootState nav) = Return n /\ canExit n = false)
  \/ (handled = false /\ calls = [] /\
      (isReady nav = false \/
       hostCanGoBack nav = false /\
       exists n, getActiveRouteName (getRootState nav) = Return n /\ canExit n = false)).
Proof.
  unfold onBackPress. destruct (isReady nav); simpl.
  - destruct (getActiveRouteName (getRootState nav)) as [n|e]; [|done].
    destruct (canExit n) eqn:Hexit; [|destruct (hostCanGoBack nav) eqn:Hback];
      intros [= <- <-].
    + left. repeat split; eauto.
    + right; left. repeat split; eauto.
    + right; right. repeat split; eauto.
  - intros [= <- <-]. right; right. repeat split; auto.
Qed.

Lemma onBackPress_handled_iff_acted_example :
  (true = true /\ [HostGoBack] = [ExitApp] /\
   exists n, getActiveRouteName exampleState = Return n /\ String.eqb "Home" n = true)
  \/ (true = true /\ [HostGoBack] = [HostGoBack] /\ true = true /\
      exists n, getActiveRouteName exampleState = Return n /\ String.eqb "Home" n = false)
  \/ (true = false /\ [HostGoBack] = [] /\
      (true = false \/
       true = false /\
       exists n, getActiveRouteName exampleState = Return n /\ String.eqb "Home" n = false)).
Proof.
  exact (onBackPress_handled_iff_acted (String.eqb "Home") (exampleHost true)
           true [HostGoBack] eq_refl).
Defined.

(** ** The listener over the life of the component *)

Lemma hook_run_cons heap h ev evs :
  let after := useBackButtonHandler_step heap h ev in
  useBackButtonHandler_run heap h (ev :: evs)
  = (fst (useBackButtonHandler_run heap (fst after) evs),
     match snd after with
     | Some o => o :: snd (useBackButtonHandler_run heap (fst after) evs)
     | None => snd (useBackButtonHandler_run heap (fst after) evs)
     end).
Proof.
  cbn zeta. cbn [useBackButtonHandler_run].
  destruct (useBackButtonHandler_step heap h ev) as [h1 out]. cbn [fst snd].
  by destruct (useBackButtonHandler_run heap h1 evs).
Qed.

Lemma hook_unsubscribed heap evs : forall h,
  subscribed h = false ->
  snd (useBackButtonHandler_run heap h evs) = []
  /\ subscribed (fst (useBackButtonHandler_run heap h evs)) = false.
Proof.
  induction evs as [|ev evs IH]; intros h Hsub; [done|].
  rewrite hook_run_cons. cbn zeta. cbn [fst snd].
  destruct ev as [p|nav|]; cbn [useBackButtonHandler_step].
  - destruct (Nat.eqb (canExitDeps h) p); cbn [fst snd]; by apply IH.
  - rewrite Hsub. cbn [fst snd]. by apply IH.
  - cbn [fst snd]. by apply IH.
Qed.

Lemma hook_answers heap evs : forall h,
  hook_ok h ->
  snd (useBackButtonHandler_run heap h evs) = latestAnswers heap (canExitRef h) evs.
Proof.
  induction evs as [|ev evs IH]; intros h Hok; [done|].
  rewrite hook_run_cons. cbn zeta. cbn [fst snd latestAnswers].
  destruct ev as [p|nav|].
  - pose proof (render_sets_ref heap h p Hok) as (Hok' & Href & _).
    cbn zeta in Hok', Href.
    assert (snd (useBackButtonHandler_step heap h (Render p)) = None) as ->.
    { simpl. by destruct (Nat.eqb (canExitDeps h) p). }
    by rewrite IH, Href.
  - cbn [useBackButtonHandler_step]. destruct Hok as [Href Hsub].
    rewrite Hsub. cbn [fst snd]. by rewrite IH.
  - cbn [useBackButtonHandler_step fst snd].
    by apply hook_unsubscribed.
Qed.

Lemma hook_stays_mounted heap evs : forall h,
  hook_ok h ->
  forallb (fun ev => negb (isUnmount ev)) evs = true ->
  hook_ok (fst (useBackButtonHandler_run heap h evs))
  /\ backHandlerCalls (fst (useBackButtonHandler_run heap h evs))
     = backHandlerCalls h.
Proof.
  induction evs as [|ev evs IH]; intros h Hok Hevs; [done|].
  simpl in Hevs. apply andb_prop in Hevs as [Hev Hevs].
  rewrite hook_run_cons. cbn zeta. cbn [fst snd].
  destruct ev as [p|nav|]; [| |done].
  - pose proof (render_sets_ref heap h p Hok) as (Hok' & _ & Hcalls).
    cbn zeta in Hok', Hcalls. rewrite <- Hcalls. by apply IH.
  - cbn [useBackButtonHandler_step]. destruct Hok as [Href Hsub].
    rewrite Hsub. cbn [fst]. by apply IH.
Qed.

(** X2. From mount on a platform with a back button, over any renders,
    presses and an unmount in any order, each press before the unmount is
    answered with the predicate of the latest render before it (the one of
    the mount when there is none) and no press after the unmount is
    answered; as long as the component is not unmounted, the listener added
    at mount is the only call [BackHandler] has received. *)
Theorem presses_answered_by_latest_predicate (heap : FnHeap) (os : string)
    (first : Fn) (h : BackButtonHook) (evs : list HookEvent) :
  useBackButtonHandler_mount os first = Some h ->
  snd (useBackButtonHandler_run heap h evs) = latestAnswers heap first evs /\
  (forallb (fun ev => negb (isUnmount ev)) evs = true ->
   backHandlerCalls (fst (useBackButtonHandler_run heap h evs)) = [AddEventListener]
   /\ subscribed (fst (useBackButtonHandler_run heap h evs)) = true).
Proof.
  intros Hmount. pose proof (hook_ok_mount _ _ _ Hmount) as Hok.
  assert (canExitRef h = first /\ backHandlerCalls h = [AddEventListener])
    as [Hfirst Hcalls].
  { unfold useBackButtonHandler_mount in Hmount.
    destruct (String.eqb os "ios"); [done|]. by inversion Hmount. }
  split.
  - by rewrite hook_answers, Hfirst.
  - intros Hevs.
    destruct (hook_stays_mounted heap evs h Hok Hevs) as [[_ Hsub] Hlog].
    by rewrite Hlog, Hcalls.
Qed.

Lemma presses_answered_by_latest_predicate_example :
  snd (useBackButtonHandler_run exampleHeap androidHook
         [Press (exampleHost false); Render 1%nat; Render 0%nat;
          Press (exampleHost true); Render 1%nat; Press (exampleHost true);
          Unmount; Press (exampleHost true)])
  = [Return (false, []); Return (true, [HostGoBack]); Return (true, [ExitApp])].
Proof.
  exact (proj1 (presses_answered_by_latest_predicate exampleHeap "android" 0%nat
                  androidHook
                  [Press (exampleHost false); Render 1%nat; Render 0%nat;
                   Press (exampleHost true); Render 1%nat; Press (exampleHost true);
                   Unmount; Press (exampleHost true)] eq_refl)).
Defined.

(** X3. When the component unmounts, after any renders and presses, the
    listener is removed: [BackHandler] has received one
    [addEventListener] and one [removeEventListener] in all, and whatever
    renders and presses follow, none is answered and nothing more is
    registered. *)
Theorem unmount_removes_listener (heap : FnHeap) (os : string) (first : Fn)
    (h : BackButtonHook) (evs1 evs2 : list HookEvent) :
  useBackButtonHandler_mount os first = Some h ->
  forallb (fun ev => negb (isUnmount ev)) evs1 = true ->
  forallb (fun ev => negb (isUnmount ev)) evs2 = true ->
  let after := useBackButtonHandler_run heap h (evs1 ++ Unmount :: evs2) in
  backHandlerCalls (fst after) = [RemoveEventListener; AddEventListener] /\
  subscribed (fst after) = false /\
  snd after = snd (useBackButtonHandler_run heap h evs1).
Proof.
  intros Hmount. pose proof (hook_ok_mount _ _ _ Hmount) as Hok.
  assert (backHandlerCalls h = [AddEventListener]) as Hcalls.
  { unfold useBackButtonHandler_mount in Hmount.
    destruct (String.eqb os "ios"); [done|]. by inversion Hmount. }
  clear Hmount. revert h Hok Hcalls.
  induction evs1 as [|ev evs1 IH]; intros h Hok Hcalls H1 H2; cbn zeta.
  - change ([] ++ Unmount :: evs2) with (Unmount :: evs2).
    rewrite hook_run_cons. cbn zeta. cbn [useBackButtonHandler_step fst snd].
    set (h' := {| canExitRef := canExitRef h; canExitDeps := canExitDeps h;
                  subscribed := false;
                  backHandlerCalls := RemoveEventListener :: backHandlerCalls h |}).
    destruct (hook_unsubscribed heap evs2 h' eq_refl) as [Hout Hsub].
    assert (forall evs k,
              forallb (fun ev => negb (isUnmount ev)) evs = true ->
              backHandlerCalls (fst (useBackButtonHandler_run heap k evs))
              = backHandlerCalls k) as Hkeep.
    { clear. induction evs as [|ev evs IH]; intros k Hevs; [done|].
      simpl in Hevs. apply andb_prop in Hevs as [Hev Hevs].
      rewrite hook_run_cons. cbn zeta. cbn [fst].
      rewrite IH; [|done].
      destruct ev as [p|nav|]; [| |done]; cbn [useBackButtonHandler_step].
      - by destruct (Nat.eqb (canExitDeps k) p).
      - by destruct (subscribed k). }
    rewrite Hkeep; [|done]. subst h'. simpl.
    split; [by rewrite Hcalls|]. split; [exact Hsub|exact Hout].
  - simpl in H1. apply andb_prop in H1 as [Hev H1].
    change ((ev :: evs1) ++ Unmount :: evs2) with (ev :: (evs1 ++ Unmount :: evs2)).
    rewrite !hook_run_cons. cbn zeta. cbn [fst snd].
    assert (hook_ok (fst (useBackButtonHandler_step heap h ev))
            /\ backHandlerCalls (fst (useBackButtonHandler_step heap h ev))
               = [AddEventListener]) as [Hok' Hcalls'].
    { destruct ev as [p|nav|]; [| |done].
      - pose proof (render_sets_ref heap h p Hok) as (? & _ & Hc).
        cbn zeta in *. by rewrite Hc.
      - cbn [useBackButtonHandler_step]. destruct (subscribed h); by cbn [fst]. }
    specialize (IH _ Hok' Hcalls' H1 H2). cbn zeta in IH.
    destruct IH as (I1 & I2 & I3). by rewrite I1, I2, I3.
Qed.

Lemma unmount_removes_listener_example :
  let after := useBackButtonHandler_run exampleHeap androidHook
                 ([Render 1%nat; Press (exampleHost false)]
                  ++ Unmount :: [Press (exampleHost false); Render 0%nat]) in
  backHandlerCalls (fst after) = [RemoveEventListener; AddEventListener] /\
  subscribed (fst after) = false /\
  snd after = [Return (true, [ExitApp])].
Proof.
  exact (unmount_removes_listener exampleHeap "android" 0%nat androidHook
           [Render 1%nat; Press (exampleHost false)]
           [Press (exampleHost false); Render 0%nat] eq_refl eq_refl eq_refl).
Defined.

(** ** Reports of navigation state changes *)

Lemma observe_all_cons dev key o st states :
  observe_all dev key o (st :: states)
  = observe_all dev key (observe dev key o st) states.
Proof. reflexivity. Qed.

(** One report, by whether the reported state has an active route. *)
Lemma observe_eq dev key o st :
  observe dev key o st
  = match persistable st, activeName st with
    | Some reported, Some n =>
        {| routeNameRef := Some n;
           consoleLog :=
             if negb (bool_decide (routeNameRef o = Some n)) && dev
             then n :: consoleLog o else consoleLog o;
           setItemCalls := (key, reported) :: setItemCalls o |}
    | _, _ => o
    end.
Proof.
  unfold observe, onNavigationStateChange, persistable, activeName.
  destruct st as [s|]; [|done].
  destruct (getActiveRouteName s) as [n|e]; [|done].
  by destruct (bool_decide (routeNameRef o = Some n)), dev.
Qed.

Lemma persistable_activeName st :
  is_Some (persistable st) <-> is_Some (activeName st).
Proof.
  unfold persistable. destruct st as [s|]; simpl; [|done].
  destruct (match getActiveRouteName s with Return n => Some n | Throw _ => None end);
    split; intros [? ?]; eauto; done.
Qed.

Lemma omap_cons_eq {A B} (f : A -> option B) (x : A) (l : list A) :
  omap f (x :: l)
  = match f x with Some y => y :: omap f l | None => omap f l end.
Proof. reflexivity. Qed.

(** X4. Every reported state that has an active route is written to
    storage under the persistence key, in the order of the reports and
    whether or not the route changed; reports without an active route
    write nothing; and the ref ends on the active route name of the last
    report that had one. *)
Theorem every_report_is_persisted (dev : bool) (key : string)
    (states : list (option NavigationState)) (o : Observer) :
  let o' := observe_all dev key o states in
  setItemCalls o'
  = reverse (map (fun reported => (key, reported)) (omap persistable states))
    ++ setItemCalls o /\
  routeNameRef o'
  = match last (omap activeName states) with
    | Some n => Some n
    | None => routeNameRef o
    end.
Proof.
  cbn zeta. revert o. induction states as [|st states IH]; intros o; [done|].
  rewrite observe_all_cons. destruct (IH (observe dev key o st)) as [Hw Hr].
  rewrite Hw, Hr, observe_eq, !omap_cons_eq. clear IH Hw Hr.
  pose proof (persistable_activeName st) as Hboth.
  destruct (persistable st) as [reported|], (activeName st) as [n|].
  - cbn [map setItemCalls routeNameRef]. rewrite reverse_cons, <- app_assoc.
    split; [done|]. rewrite last_cons. by destruct (last (omap activeName states)).
  - destruct Hboth as [Hboth _]. by destruct Hboth.
  - destruct Hboth as [_ Hboth]. by destruct Hboth.
  - done.
Qed.

(** Two reports of the same screen, then a report of an invalid state. *)
Lemma every_report_is_persisted_example :
  setItemCalls
    (observe_all true "NAVIGATION_STATE" observer_mount
       [Some exampleState; Some exampleState; Some resetRoot_default; None])
  = [("NAVIGATION_STATE", exampleState); ("NAVIGATION_STATE", exampleState)]
  /\ routeNameRef
       (observe_all true "NAVIGATION_STATE" observer_mount
          [Some exampleState; Some exampleState; Some resetRoot_default; None])
     = Some "Settings".
Proof.
  exact (every_report_is_persisted true "NAVIGATION_STATE"
           [Some exampleState; Some exampleState; Some resetRoot_default; None]
           observer_mount).
Defined.

(** X5. In a production build nothing is ever logged; in a development
    build the names logged are the active route names of the reports, in
    order, without those equal to the name recorded before them: a report
    that stays on the same route logs nothing, and the first report after
    mount always logs. *)
Theorem route_changes_logged_in_development (key : string)
    (states : list (option NavigationState)) (o : Observer) :
  consoleLog (observe_all false key o states) = consoleLog o /\
  consoleLog (observe_all true key o states)
  = reverse (routeChanges (routeNameRef o) (omap activeName states))
    ++ consoleLog o.
Proof.
  revert o. induction states as [|st states IH]; intros o; [done|].
  rewrite !observe_all_cons.
  destruct (IH (observe false key o st)) as [IHprod _].
  destruct (IH (observe true key o st)) as [_ IHdev].
  rewrite IHprod, IHdev, !observe_eq, !omap_cons_eq. clear IH IHprod IHdev.
  pose proof (persistable_activeName st) as Hboth.
  destruct (persistable st) as [reported|], (activeName st) as [n|].
  - cbn [consoleLog routeNameRef routeChanges].
    rewrite andb_false_r, andb_true_r. split; [done|].
    destruct (bool_decide (routeNameRef o = Some n)); simpl; [done|].
    by rewrite reverse_cons, <- app_assoc.
  - destruct Hboth as [Hboth _]. by destruct Hboth.
  - destruct Hboth as [_ Hboth]. by destruct Hboth.
  - done.
Qed.

Lemma route_changes_logged_in_development_example :
  consoleLog
    (observe_all true "NAVIGATION_STATE" observer_mount
       [Some exampleState; Some exampleState;
        Some (MkState None [MkRoute "Login" None]); Some exampleState])
  = ["Settings"; "Login"; "Settings"].
Proof.
  exact (proj2 (route_changes_logged_in_development "NAVIGATION_STATE"
                  [Some exampleState; Some exampleState;
                   Some (MkState None [MkRoute "Login" None]); Some exampleState]
                  observer_mount)).
Defined.

(** X6. A report of [undefined], or of a state in which some level
    reached selects no route, makes [onNavigationStateChange] raise before
    it records, logs or writes anything; a back press on such a root state
    raises as well, whatever the predicate.  The state [resetRoot] passes
    when it is called without argument is one of these. *)
Theorem invalid_state_raises_before_write (dev : bool) (key : string)
    (o : Observer) (state : option NavigationState) :
  (state = None \/ exists s, state = Some s /\ Dangling s) ->
  onNavigationStateChange dev key o state = Throw TypeError /\
  observe dev key o state = o /\
  (forall canExit nav,
      isReady nav = true -> state = Some (getRootState nav) ->
      onBackPress canExit nav = Throw TypeError).
Proof.
  intros Hbad.
  assert (onNavigationStateChange dev key o state = Throw TypeError) as Hthrow.
  { destruct Hbad as [->|(s & -> & Hs)]; [done|].
    apply getActiveRouteName_Dangling in Hs.
    unfold onNavigationStateChange. by rewrite Hs. }
  split; [done|]. split.
  - unfold observe. by rewrite Hthrow.
  - intros canExit nav Hready ->. destruct Hbad as [|(s & [= <-] & Hs)]; [done|].
    apply getActiveRouteName_Dangling in Hs.
    unfold onBackPress. by rewrite Hready, Hs.
Qed.

Lemma invalid_state_raises_before_write_example :
  onNavigationStateChange true "NAVIGATION_STATE" observer_mount
    (Some resetRoot_default) = Throw TypeError
  /\ observe true "NAVIGATION_STATE" observer_mount (Some resetRoot_default)
     = observer_mount
  /\ onBackPress (fun _ => true)
       {| isReady := true; getRootState := resetRoot_default;
          hostCanGoBack := true |} = Throw TypeError.
Proof.
  destruct (invalid_state_raises_before_write true "NAVIGATION_STATE"
              observer_mount (Some resetRoot_default)) as (H1 & H2 & H3).
  { right. exists resetRoot_default. split; [reflexivity|].
    apply dangling_here. reflexivity. }
  split; [exact H1|]. split; [exact H2|].
  apply H3; reflexivity.
Defined.

(** ** The restoration flag over the life of the component *)

Lemma persistence_run_cons dev p ev evs :
  useNavigationPersistence_run dev p (ev :: evs)
  = useNavigationPersistence_run dev (useNavigationPersistence_step dev p ev) evs.
Proof. reflexivity. Qed.

Lemma persistence_run_app dev p evs1 evs2 :
  useNavigationPersistence_run dev p (evs1 ++ evs2)
  = useNavigationPersistence_run dev (useNavigationPersistence_run dev p evs1) evs2.
Proof. unfold useNavigationPersistence_run. apply foldl_app. Qed.

(** The effect may start a read; it touches nothing else but its own
    record of [isRestored]. *)
Lemma persistenceEffect_fields dev p :
  let p' := persistenceEffect dev p in
  isRestored p' = isRestored p /\
  isMounted p' = isMounted p /\
  initialNavigationState p' = initialNavigationState p /\
  effectDeps p' = Some (isRestored p) /\
  (isRestored p = true -> pendingReads p' = pendingReads p
                          /\ readsIssued p' = readsIssued p).
Proof.
  cbn zeta. unfold persistenceEffect. case_decide as Hdeps.
  - done.
  - destruct (isRestored p), dev; simpl; repeat split; done.
Qed.

Lemma persistenceEffect_same_deps dev p :
  effectDeps p = Some (isRestored p) -> persistenceEffect dev p = p.
Proof. intros H. unfold persistenceEffect. by case_decide. Qed.

Lemma persistence_step_reads dev p ev :
  effect_settled p ->
  effect_settled (useNavigationPersistence_step dev p ev)
  /\ readsIssued (useNavigationPersistence_step dev p ev) = readsIssued p.
Proof.
  intros Hinv. destruct ev as [outcome| |]; simpl.
  - destruct (pendingReads p) as [|k] eqn:Hpending; [done|].
    destruct (isMounted p) eqn:Hm; simpl.
    + set (p' := {| initialNavigationState := _ |}).
      pose proof (persistenceEffect_fields dev p') as (Hr & _ & _ & Hd & Hreads).
      cbn zeta in *. split.
      * intros _. by rewrite Hd, Hr.
      * by destruct (Hreads eq_refl) as [_ ->].
    + split; [|done]. intros Hm'. simpl in Hm'. congruence.
  - destruct (isMounted p) eqn:Hm; [|done].
    by rewrite persistenceEffect_same_deps; [|apply Hinv].
  - split; [|done]. intros Hm. simpl in Hm. done.
Qed.

Lemma effect_settled_mount policy dev :
  effect_settled (useNavigationPersistence_mount policy dev).
Proof. intros _. by rewrite useNavigationPersistence_mount_eq. Qed.

(** X8. However the component lives (reads settling in any way, renders,
    unmount), in either build and under every policy, the hook makes no
    read beyond the one of its mount effect: at most one [getItem] is ever
    issued. *)
Theorem at_most_one_restoration_read (policy : string) (dev : bool)
    (evs : list PersistenceEvent) :
  let p := useNavigationPersistence_run dev
             (useNavigationPersistence_mount policy dev) evs in
  readsIssued p = readsIssued (useNavigationPersistence_mount policy dev) /\
  (readsIssued p <= 1)%nat.
Proof.
  cbn zeta.
  assert (forall p, effect_settled p ->
            readsIssued (useNavigationPersistence_run dev p evs) = readsIssued p)
    as Hrun.
  { induction evs as [|ev evs IH]; intros p Hp; [done|].
    rewrite persistence_run_cons.
    destruct (persistence_step_reads dev p ev Hp) as [Hp' Hreads].
    by rewrite IH. }
  rewrite Hrun by apply effect_settled_mount. split; [done|].
  rewrite useNavigationPersistence_mount_eq. simpl.
  destruct (specRestores policy dev && dev); lia.
Qed.

Lemma persistence_step_keeps_flag dev p ev :
  isRestored p = true -> isRestored (useNavigationPersistence_step dev p ev) = true.
Proof.
  intros Hr. destruct ev as [outcome| |]; simpl.
  - destruct (pendingReads p); [done|]. simpl.
    destruct (isMounted p); simpl; [|done].
    by rewrite (proj1 (persistenceEffect_fields dev _)).
  - destruct (isMounted p); [|done].
    by rewrite (proj1 (persistenceEffect_fields dev _)).
  - done.
Qed.

Lemma persistence_run_keeps_flag dev evs : forall p,
  isRestored p = true ->
  isRestored (useNavigationPersistence_run dev p evs) = true.
Proof.
  induction evs as [|ev evs IH]; intros p Hr; [done|].
  rewrite persistence_run_cons. by apply IH, persistence_step_keeps_flag.
Qed.

(** X9. Once [isRestored] is true it stays true: no event of the hook, in
    either build, sets it back. *)
Theorem isRestored_never_reset (dev : bool) (p : Persistence)
    (evs : list PersistenceEvent) :
  isRestored p = true ->
  isRestored (useNavigationPersistence_run dev p evs) = true.
Proof. apply persistence_run_keeps_flag. Qed.

Lemma isRestored_never_reset_example :
  isRestored
    (useNavigationPersistence_run true
       (useNavigationPersistence_step true
          (useNavigationPersistence_mount "always" true) (ReadSettles Rejected))
       [Rerender; ReadSettles Absent; Unmounts; Rerender]) = true.
Proof.
  exact (isRestored_never_reset true
           (useNavigationPersistence_step true
              (useNavigationPersistence_mount "always" true) (ReadSettles Rejected))
           [Rerender; ReadSettles Absent; Unmounts; Rerender] eq_refl).
Defined.

Lemma awaiting_mount policy : awaiting (useNavigationPersistence_mount policy true).
Proof.
  rewrite useNavigationPersistence_mount_eq. unfold awaiting. simpl.
  destruct (specRestores policy true); simpl; eauto.
Qed.

Lemma awaiting_step p ev :
  awaiting p -> isUnmounts ev = false ->
  awaiting (useNavigationPersistence_step true p ev).
Proof.
  intros Hp Hev. pose proof Hp as (Hm & Hd & Hw).
  destruct ev as [outcome| |]; [| |done]; simpl.
  - destruct (pendingReads p) as [|k] eqn:Hpending; [exact Hp|].
    rewrite Hm. simpl. set (p' := {| initialNavigationState := _ |}).
    pose proof (persistenceEffect_fields true p') as (Hr & Hm' & _ & Hd' & _).
    cbn zeta in *. unfold awaiting. rewrite Hr, Hm', Hd'. simpl. auto.
  - rewrite Hm, persistenceEffect_same_deps; [exact Hp|exact Hd].
Qed.

(** X10. In a development build, under every policy, as soon as a read
    has settled while the component was still mounted (found, absent or
    rejected alike), [isRestored] is true, and it is still true after
    whatever follows. *)
Theorem development_flag_set_once_read_settles (policy : string)
    (evs1 evs2 : list PersistenceEvent) (outcome : ReadOutcome) :
  forallb (fun ev => negb (isUnmounts ev)) evs1 = true ->
  isRestored
    (useNavigationPersistence_run true
       (useNavigationPersistence_mount policy true)
       (evs1 ++ ReadSettles outcome :: evs2)) = true.
Proof.
  intros Hevs. rewrite persistence_run_app, persistence_run_cons.
  apply persistence_run_keeps_flag.
  assert (awaiting (useNavigationPersistence_run true
                      (useNavigationPersistence_mount policy true) evs1))
    as (Hm & _ & Hw).
  { generalize (awaiting_mount policy).
    generalize (useNavigationPersistence_mount policy true) as p.
    induction evs1 as [|ev evs1 IH]; intros p Hp; [done|].
    simpl in Hevs. apply andb_prop in Hevs as [Hev Hevs].
    rewrite persistence_run_cons. apply IH; [done|].
    apply awaiting_step; [done|]. by destruct (isUnmounts ev). }
  destruct Hw as [Hr|[k Hk]].
  - by apply persistence_step_keeps_flag.
  - simpl. rewrite Hk, Hm. simpl.
    by rewrite (proj1 (persistenceEffect_fields true _)).
Qed.

Lemma development_flag_set_once_read_settles_example :
  isRestored
    (useNavigationPersistence_run true
       (useNavigationPersistence_mount "dev" true)
       ([Rerender; Rerender] ++ ReadSettles Rejected :: [Unmounts; Rerender]))
  = true.
Proof.
  exact (development_flag_set_once_read_settles "dev" [Rerender; Rerender]
           [Unmounts; Rerender] Rejected eq_refl).
Defined.

(** The hook at rest: flag set, nothing read, nothing pending. *)
Lemma persistence_step_disabled dev p ev :
  isRestored p = true -> pendingReads p = 0%nat ->
  let p' := useNavigationPersistence_step dev p ev in
  isRestored p' = true /\ pendingReads p' = 0%nat /\
  readsIssued p' = readsIssued p /\
  initialNavigationState p' = initialNavigationState p.
Proof.
  intros Hr Hpending. cbn zeta. destruct ev as [outcome| |]; simpl.
  - by rewrite Hpending.
  - destruct (isMounted p); [|done].
    pose proof (persistenceEffect_fields dev p) as (-> & _ & -> & _ & Hreads).
    by destruct (Hreads Hr) as [-> ->].
  - done.
Qed.

Lemma persistence_run_disabled dev evs : forall p,
  isRestored p = true -> pendingReads p = 0%nat ->
  let p' := useNavigationPersistence_run dev p evs in
  isRestored p' = true /\ pendingReads p' = 0%nat /\
  readsIssued p' = readsIssued p /\
  initialNavigationState p' = initialNavigationState p.
Proof.
  induction evs as [|ev evs IH]; intros p Hr Hpend; [done|].
  cbn zeta. rewrite persistence_run_cons.
  destruct (persistence_step_disabled dev p ev Hr Hpend) as (Hr' & Hpend' & <- & <-).
  exact (IH _ Hr' Hpend').
Qed.

(** X11. Whenever the helper answers that restoration is already done
    (an unknown policy in any build, ['dev'] in a production build,
    ['prod'] in a development build), the hook reports [isRestored] from
    the first render and keeps it, never reads storage and never sets an
    initial navigation state, whatever happens afterwards. *)
Theorem disabled_policy_never_reads (policy : string) (dev : bool)
    (evs : list PersistenceEvent) :
  navigationRestoredDefaultState policy dev = true ->
  let p := useNavigationPersistence_run dev
             (useNavigationPersistence_mount policy dev) evs in
  isRestored p = true /\ readsIssued p = 0%nat /\ pendingReads p = 0%nat /\
  initialNavigationState p = None.
Proof.
  intros Hhelper. cbn zeta.
  rewrite navigationRestoredDefaultState_table in Hhelper.
  apply negb_true_iff in Hhelper.
  rewrite useNavigationPersistence_mount_eq, Hhelper. simpl.
  set (p := {| initialNavigationState := None |}).
  pose proof (persistence_run_disabled dev evs p eq_refl eq_refl)
    as (H1 & H2 & H3 & H4).
  split; [exact H1|]. split; [exact H3|]. split; [exact H2|exact H4].
Qed.

Lemma disabled_policy_never_reads_example :
  let p := useNavigationPersistence_run true
             (useNavigationPersistence_mount "never" true)
             [Rerender; ReadSettles (Found exampleState); Unmounts] in
  isRestored p = true /\ readsIssued p = 0%nat /\ pendingReads p = 0%nat /\
  initialNavigationState p = None.
Proof.
  exact (disabled_policy_never_reads "never" true
           [Rerender; ReadSettles (Found exampleState); Unmounts] eq_refl).
Defined.

Lemma persistence_step_absentAsRejected dev p ev :
  useNavigationPersistence_step dev p (absentAsRejected ev)
  = useNavigationPersistence_step dev p ev.
Proof. by destruct ev as [[]| |]. Qed.

Lemma persistence_step_not_found dev p ev :
  isFound ev = false ->
  initialNavigationState (useNavigationPersistence_step dev p ev)
  = initialNavigationState p.
Proof.
  intros Hev. destruct ev as [outcome| |]; simpl.
  - destruct (pendingReads p); [done|]. simpl.
    assert (match outcome with
            | Found stored => Some stored
            | _ => initialNavigationState p
            end = initialNavigationState p) as Hsame by by destruct outcome.
    destruct (isMounted p); simpl; [|done].
    by rewrite (proj1 (proj2 (proj2 (persistenceEffect_fields dev _)))).
  - destruct (isMounted p); [|done].
    by rewrite (proj1 (proj2 (proj2 (persistenceEffect_fields dev _)))).
  - done.
Qed.

(** X12. A read that is rejected and a read that finds nothing leave the
    hook in the same state, at any point of any run; and as long as no
    read finds a value, the initial navigation state stays undefined. *)
Theorem failed_read_is_absent_read (policy : string) (dev : bool)
    (evs : list PersistenceEvent) :
  useNavigationPersistence_run dev (useNavigationPersistence_mount policy dev)
    (map absentAsRejected evs)
  = useNavigationPersistence_run dev (useNavigationPersistence_mount policy dev) evs
  /\ (forallb (fun ev => negb (isFound ev)) evs = true ->
      initialNavigationState
        (useNavigationPersistence_run dev
           (useNavigationPersistence_mount policy dev) evs) = None).
Proof.
  split.
  - generalize (useNavigationPersistence_mount policy dev) as p.
    induction evs as [|ev evs IH]; intros p; [done|].
    cbn [map]. rewrite !persistence_run_cons, persistence_step_absentAsRejected.
    apply IH.
  - intros Hevs.
    assert (initialNavigationState (useNavigationPersistence_mount policy dev) = None)
      as Hinit by by rewrite useNavigationPersistence_mount_eq.
    revert Hinit. generalize (useNavigationPersistence_mount policy dev) as p.
    induction evs as [|ev evs IH]; intros p Hinit; [done|].
    simpl in Hevs. apply andb_prop in Hevs as [Hev Hevs].
    rewrite persistence_run_cons. apply IH; [done|].
    rewrite persistence_step_not_found; [done|]. by destruct (isFound ev).
Qed.

Lemma failed_read_is_absent_read_example :
  useNavigationPersistence_run true (useNavigationPersistence_mount "always" true)
    (map absentAsRejected [Rerender; ReadSettles Absent; Rerender])
  = useNavigationPersistence_run true (useNavigationPersistence_mount "always" true)
      [Rerender; ReadSettles Absent; Rerender]
  /\ initialNavigationState
       (useNavigationPersistence_run true
          (useNavigationPersistence_mount "always" true)
          [Rerender; ReadSettles Absent; Rerender]) = None.
Proof.
  destruct (failed_read_is_absent_read "always" true
              [Rerender; ReadSettles Absent; Rerender]) as [Hsame Hnone].
  split; [exact Hsame|]. apply Hnone. reflexivity.
Defined.

(** X13. In a development build with restoration enabled, when the read
    of the mount effect finds a value, that value is the initial navigation
    state, and it is still the initial navigation state after whatever
    follows: later settlements, renders or an unmount do not replace it. *)
Theorem restored_state_is_the_stored_one (policy : string) (renders : nat)
    (stored : NavigationState) (evs : list PersistenceEvent) :
  navigationRestoredDefaultState policy true = false ->
  let p := useNavigationPersistence_run true
             (useNavigationPersistence_mount policy true)
             (replicate renders Rerender ++ ReadSettles (Found stored) :: evs) in
  initialNavigationState p = Some stored /\ isRestored p = true /\
  readsIssued p = 1%nat /\ pendingReads p = 0%nat.
Proof.
  intros Hhelper. cbn zeta.
  rewrite navigationRestoredDefaultState_table in Hhelper.
  apply negb_false_iff in Hhelper.
  rewrite persistence_run_app, persistence_run_cons.
  rewrite useNavigationPersistence_mount_eq, Hhelper. simpl.
  set (p0 := {| initialNavigationState := None |}).
  assert (useNavigationPersistence_run true p0 (replicate renders Rerender) = p0)
    as ->.
  { induction renders as [|k IH]; [done|].
    cbn [replicate]. by rewrite persistence_run_cons. }
  pose proof (persistence_run_disabled true evs
                (useNavigationPersistence_step true p0 (ReadSettles (Found stored)))
                eq_refl eq_refl) as (H1 & H2 & H3 & H4).
  split; [exact H4|]. split; [exact H1|]. split; [exact H3|exact H2].
Qed.

Lemma restored_state_is_the_stored_one_example :
  let p := useNavigationPersistence_run true
             (useNavigationPersistence_mount "always" true)
             (replicate 2 Rerender ++ ReadSettles (Found exampleState)
                :: [ReadSettles (Found resetRoot_default); Rerender; Unmounts]) in
  initialNavigationState p = Some exampleState /\ isRestored p = true /\
  readsIssued p = 1%nat /\ pendingReads p = 0%nat.
Proof.
  exact (restored_state_is_the_stored_one "always" 2 exampleState
           [ReadSettles (Found resetRoot_default); Rerender; Unmounts] eq_refl).
Defined.

End NavigationSpec.

(** * Properties of the bottom sheet *)

Module BottomSheetSpec.
Import BottomSheet.
Local Close Scope Z_scope.
Local Open Scope nat_scope.

(** ** Comparisons of binary64 values *)

Lemma float_leb_zero_not_gt (dy : float) :
  (dy <=? 0)%float = true -> (0 <? dy)%float = false.
Proof.
  rewrite leb_spec, ltb_spec. change (Prim2SF 0) with (S754_zero false).
  unfold SFleb, SFltb.
  destruct (Prim2SF dy) as [s|s| |s m e]; try destruct s; simpl; congruence.
Qed.

Lemma SFleb_refl_r (x y : spec_float) : SFleb x y = true -> SFleb y y = true.
Proof.
  unfold SFleb. destruct y as [s|s| |s m e].
  - reflexivity.
  - destruct s; reflexivity.
  - destruct x as [[]|[]| |[] ? ?]; simpl; congruence.
  - intros _. simpl. rewrite Z.compare_refl.
    change (Pos.compare_cont Eq m m) with (Pos.compare m m).
    rewrite Pos.compare_refl. destruct s; reflexivity.
Qed.

Lemma float_leb_refl_r (v x : float) :
  (v <=? x)%float = true -> (x <=? x)%float = true.
Proof. rewrite !leb_spec. apply SFleb_refl_r. Qed.

(** ** The effect of the entrance runs at mount only *)

Lemma commit_mounted c : mounted c -> commit c = c.
Proof. unfold mounted, commit. intros H. by case_decide. Qed.

Lemma ref_advance driver dt sv : ref (advance driver dt sv) = ref sv.
Proof.
  unfold advance. destruct (running sv) as [r|]; [|done].
  by destruct (driver _ _ _).
Qed.

Lemma mounted_mount : mounted mount.
Proof. reflexivity. Qed.

Lemma mounted_step driver c ev : mounted c -> mounted (step driver c ev).
Proof.
  intros H. destruct ev; simpl; try exact H.
  - by rewrite commit_mounted.
  - unfold mounted, frame. simpl. by rewrite ref_advance.
Qed.

Lemma mounted_run driver evs : forall c, mounted c -> mounted (run driver c evs).
Proof.
  unfold run. induction evs as [|ev evs IH]; intros c H; [done|].
  simpl. apply IH. by apply mounted_step.
Qed.

Lemma run_app driver c evs1 evs2 :
  run driver c (evs1 ++ evs2) = run driver (run driver c evs1) evs2.
Proof. unfold run. apply foldl_app. Qed.

Lemma run_cons driver c ev evs :
  run driver c (ev :: evs) = run driver (step driver c ev) evs.
Proof. reflexivity. Qed.

(** ** A drag *)

(** Renders, frames and moves leave the gesture context alone. *)
Lemma dragging_keeps_startY driver evs : forall c,
  mounted c ->
  forallb dragging evs = true ->
  startY (run driver c evs) = startY c.
Proof.
  induction evs as [|ev evs IH]; intros c Hm Hevs; [done|].
  simpl in Hevs. apply andb_prop in Hevs as [Hev Hevs].
  rewrite run_cons, IH; [|by apply mounted_step|done].
  destruct ev; try done. simpl. by rewrite commit_mounted.
Qed.

(** With no animation in progress, renders and frames change nothing. *)
Lemma passive_idle driver evs : forall c,
  mounted c ->
  running (translateY c) = None ->
  running (scale c) = None ->
  forallb passive evs = true ->
  run driver c evs = c.
Proof.
  induction evs as [|ev evs IH]; intros c Hm Hty Hsc Hevs; [done|].
  simpl in Hevs. apply andb_prop in Hevs as [Hev Hevs].
  rewrite run_cons.
  assert (step driver c ev = c) as ->; [|by apply IH].
  destruct ev; try done; simpl.
  - by apply commit_mounted.
  - unfold frame, advance. rewrite Hty, Hsc. by destruct c.
Qed.

(** C3. On a mounted sheet in any state [c], the start of a gesture
    stores [s], the current [translateY], in the context and changes
    neither shared value; after any moves (with renders and frames in
    between) the last of which reports the translation [dy] since the start
    of the gesture, [translateY] is the sum [s + dy] of the two numbers,
    with no bound applied, and [scale] is [1 - dy / 1000] when [dy > 0] and
    [1] when [dy <= 0]. *)
Theorem drag_follows_translation (driver : Driver)
    (before moves rest : list Event) (dy : float) :
  forallb dragging moves = true ->
  forallb passive rest = true ->
  let c := run driver mount before in
  let s := value (translateY c) in
  let c' := run driver (onStart c) (moves ++ Active dy :: rest) in
  (startY (onStart c) = Some s /\
   translateY (onStart c) = translateY c /\ scale (onStart c) = scale c) /\
  value (translateY c') = (s + dy)%float /\
  ((0 <? dy)%float = true -> value (scale c') = (1 - dy / 1000)%float) /\
  ((dy <=? 0)%float = true -> value (scale c') = 1%float).
Proof.
  intros Hmoves Hrest c s c'.
  assert (mounted c) as Hc by apply mounted_run, mounted_mount.
  assert (mounted (onStart c)) as Hstart by exact Hc.
  split; [done|].
  subst c'. rewrite run_app, run_cons.
  set (c1 := run driver (onStart c) moves).
  assert (startY c1 = Some s) as Hs.
  { subst c1. by rewrite dragging_keeps_startY. }
  assert (mounted c1) as Hc1 by by apply mounted_run.
  rewrite passive_idle; [|by apply (mounted_step driver c1 (Active dy))|done..].
  simpl. rewrite Hs. simpl. split; [done|]. split.
  - by intros ->.
  - intros Hle. by rewrite (float_leb_zero_not_gt _ Hle).
Qed.

Lemma drag_follows_translation_example :
  let c' := run stepDriver (onStart (run stepDriver mount [Frame 1000]))
              ([Active 10; Frame 16] ++ Active 250 :: [Frame 16; Rerender]) in
  value (translateY c') = 250%float /\ value (scale c') = 0.75%float.
Proof.
  pose proof (drag_follows_translation stepDriver [Frame 1000]
                [Active 10; Frame 16] [Frame 16; Rerender] 250 eq_refl eq_refl)
    as (_ & Hty & Hdown & _).
  cbn zeta in *. split.
  - rewrite Hty. reflexivity.
  - rewrite (Hdown eq_refl). reflexivity.
Defined.

(** ** The example driver *)

Lemma stepDriver_contract : DriverContract stepDriver.
Proof.
  split.
  - intros v d x t Ht. simpl. apply Nat.ltb_lt in Ht. by rewrite Ht.
  - intros v d x t Ht. simpl. apply Nat.ltb_ge in Ht. by rewrite Ht.
  - intros v d x t1 t2 y1 y2 Hvx _. simpl.
    destruct (t1 <? d)%nat; [|done]. destruct (t2 <? d)%nat; [|done].
    intros [= <-] [= <-]. pose proof (float_leb_refl_r _ _ Hvx). done.
Qed.

(** ** Release *)

(** What [onEnd] leaves on the two shared values: the values are not
    touched; on each, a spring toward the resting value starts from the
    current value unless the value is the resting value already, in which
    case nothing runs.  The handler reads neither the event nor a
    velocity.  How a spring then moves is the library's matter. *)
Lemma onEnd_starts_springs (c : Sheet) :
  value (translateY (onEnd c)) = value (translateY c) /\
  value (scale (onEnd c)) = value (scale c) /\
  running (translateY (onEnd c))
  = (if (value (translateY c) =? 0)%float then None
     else Some {| animation := withSpring 0 [];
                  from := value (translateY c); elapsed := 0 |}) /\
  running (scale (onEnd c))
  = (if (value (scale c) =? 1)%float then None
     else Some {| animation := withSpring 1 [];
                  from := value (scale c); elapsed := 0 |}) /\
  startY (onEnd c) = startY c.
Proof. done. Qed.

(** A frame of a spring hands the library the frames seen so far. *)
Lemma advance_spring_history driver dt v seen x t y (sv : SharedValue) :
  running sv = Some {| animation := withSpring v seen; from := x; elapsed := t |} ->
  driver (withSpring v (dt :: seen)) x (t + dt) = Some y ->
  advance driver dt sv
  = {| ref := ref sv; value := y;
       running := Some {| animation := withSpring v (dt :: seen);
                          from := x; elapsed := t + dt |} |}.
Proof. intros Hrun Hd. unfold advance. rewrite Hrun. simpl. by rewrite Hd. Qed.

(** ** Entrance *)

Section Entrance.
Variable driver : Driver.
Hypothesis contract : DriverContract driver.

Lemma advance_entering drawn t dt sv :
  entering driver drawn t sv ->
  entering driver true (t + dt) (advance driver dt sv).
Proof.
  assert (forall r e, r = {| animation := withTiming 0 1000; from := 300; elapsed := e |} ->
          forall sv', ref sv' = 0 -> running sv' = Some r ->
          entering driver true (e + dt) (advance driver dt sv')) as Hmoving.
  { intros r e -> sv' Href Hrun. unfold advance. rewrite Hrun. simpl.
    destruct (driver (withTiming 0 1000) 300%float (e + dt)) as [v|] eqn:Hd.
    - split; [done|]. left. repeat split.
      destruct (Nat.le_gt_cases 1000 (e + dt)) as [Hle|Hgt]; [|done].
      rewrite (timing_ends driver contract _ _ _ _ Hle) in Hd. discriminate.
    - split; [done|]. right. repeat split.
      destruct (Nat.le_gt_cases 1000 (e + dt)) as [Hle|Hgt]; [done|].
      destruct (timing_runs driver contract 0%float 1000 300%float _ Hgt) as [v Hv].
      congruence. }
  destruct drawn; simpl.
  - intros [Href [(Ht & Hrun & Hd)|(Ht & Hrun & Hval)]].
    + by eapply Hmoving.
    + unfold advance. rewrite Hrun. split; [done|]. right.
      repeat split; [lia|done..].
  - intros [-> ->]. by eapply Hmoving.
Qed.

Lemma passive_entering evs : forall c drawn t,
  mounted c ->
  entering driver drawn t (translateY c) ->
  forallb passive evs = true ->
  entering driver (drawn || existsb isFrame evs) (t + duration_of evs)
    (translateY (run driver c evs)).
Proof.
  induction evs as [|ev evs IH]; intros c drawn t Hm Hin Hevs.
  - simpl. by rewrite orb_false_r, Nat.add_0_r.
  - simpl in Hevs. apply andb_prop in Hevs as [Hev Hevs].
    rewrite run_cons. cbn [duration_of foldr existsb].
    change (foldr (fun ev t => frameTime ev + t) 0 evs) with (duration_of evs).
    rewrite Nat.add_assoc, orb_assoc.
    apply IH; [by apply mounted_step| |done].
    destruct ev; try done; simpl.
    + by rewrite commit_mounted, orb_false_r, Nat.add_0_r.
    + rewrite orb_true_r. by apply (advance_entering drawn).
Qed.

Lemma entering_from_mount evs :
  forallb passive evs = true ->
  entering driver (existsb isFrame evs) (duration_of evs)
    (translateY (run driver mount evs)).
Proof.
  intros Hevs.
  exact (passive_entering evs mount false 0 mounted_mount (conj eq_refl eq_refl) Hevs).
Qed.

(** The value on the curve is between the two ends. *)
Lemma entering_bounds drawn t sv :
  entering driver drawn t sv ->
  (value sv <=? 300)%float = true /\ (0 <=? value sv)%float = true.
Proof.
  destruct drawn; simpl.
  - intros [_ [(_ & _ & Hd)|(_ & _ & ->)]]; [|done].
    by destruct (timing_descends driver contract 0%float 1000 300%float t t _ _
                   eq_refl (Nat.le_refl t) Hd Hd) as (_ & ? & ?).
  - by intros [_ ->].
Qed.

Lemma entering_descends drawn1 t1 sv1 drawn2 t2 sv2 :
  entering driver drawn1 t1 sv1 ->
  entering driver (drawn1 || drawn2) (t1 + t2) sv2 ->
  (value sv2 <=? value sv1)%float = true.
Proof.
  intros H1 H2. pose proof (entering_bounds _ _ _ H2) as [Hhi Hlo].
  destruct drawn1; simpl in H1, H2.
  - destruct H1 as [_ [(Ht1 & _ & Hd1)|(Ht1 & _ & ->)]];
      destruct H2 as [_ [(Ht2 & _ & Hd2)|(Ht2 & _ & ->)]].
    + by destruct (timing_descends driver contract 0%float 1000 300%float t1 (t1 + t2)
                     _ _ eq_refl (Nat.le_add_r t1 t2) Hd1 Hd2) as (? & _).
    + by destruct (timing_descends driver contract 0%float 1000 300%float t1 t1 _ _
                     eq_refl (Nat.le_refl t1) Hd1 Hd1) as (_ & _ & ?).
    + lia.
    + done.
  - destruct H1 as [_ ->]. exact Hhi.
Qed.
End Entrance.

(** C5. With an animation library whose timing animations last for their
    duration and move in one direction: the mount effect leaves
    [translateY] at 300 with a timing animation toward 0 of 1000 ms; while
    only frames and renders follow, [translateY] never increases and stays
    between 0 and 300, the animation is in progress as long as less than
    1000 ms have run, and [translateY] is 0 with no animation once 1000 ms
    have run; and in every state the sheet can reach, a render does not run
    the effect again. *)
Theorem entrance_once_from_300_to_0 (driver : Driver) :
  DriverContract driver ->
  translateY mount
  = {| ref := 0; value := 300;
       running := Some {| animation := withTiming 0 1000; from := 300; elapsed := 0 |} |} /\
  (forall evs1 evs2,
      forallb passive evs1 = true -> forallb passive evs2 = true ->
      let y1 := value (translateY (run driver mount evs1)) in
      let y2 := value (translateY (run driver mount (evs1 ++ evs2))) in
      (y2 <=? y1)%float = true /\ (y1 <=? 300)%float = true /\ (0 <=? y2)%float = true) /\
  (forall evs,
      forallb passive evs = true -> duration_of evs < 1000 ->
      running (translateY (run driver mount evs))
      = Some {| animation := withTiming 0 1000; from := 300;
                elapsed := duration_of evs |}) /\
  (forall evs,
      forallb passive evs = true -> 1000 <= duration_of evs ->
      translateY (run driver mount evs) = {| ref := 0; value := 0; running := None |}) /\
  (forall evs, commit (run driver mount evs) = run driver mount evs).
Proof.
  intros contract. split; [reflexivity|]. split; [|split; [|split]].
  - intros evs1 evs2 H1 H2 y1 y2. subst y1 y2. rewrite run_app.
    pose proof (entering_from_mount driver contract evs1 H1) as E1.
    pose proof (passive_entering driver contract evs2 _ _ _
                  (mounted_run driver evs1 mount mounted_mount) E1 H2) as E2.
    split; [exact (entering_descends driver contract _ _ _ _ _ _ E1 E2)|].
    split.
    + exact (proj1 (entering_bounds driver contract _ _ _ E1)).
    + exact (proj2 (entering_bounds driver contract _ _ _ E2)).
  - intros evs Hevs Ht.
    pose proof (entering_from_mount driver contract evs Hevs) as E.
    destruct (existsb isFrame evs); simpl in E.
    + destruct E as [_ [(_ & Hrun & _)|(Hge & _)]]; [done|lia].
    + destruct E as [-> ->]. done.
  - intros evs Hevs Ht.
    pose proof (entering_from_mount driver contract evs Hevs) as E.
    destruct (existsb isFrame evs); simpl in E.
    + destruct E as [Href [(Hlt & _)|(_ & Hrun & Hval)]]; [lia|].
      destruct (translateY (run driver mount evs)). simpl in *. congruence.
    + destruct E as [E _]. lia.
  - intros evs. apply commit_mounted, mounted_run, mounted_mount.
Qed.

(** Frames 16 ms apart, a render among them, then the frame that passes
    1000 ms; a gesture and a release afterwards leave the effect alone. *)
Lemma entrance_once_from_300_to_0_example :
  DriverContract stepDriver
  /\ value (translateY (run stepDriver mount [Frame 16; Rerender; Frame 16])) = 300%float
  /\ translateY (run stepDriver mount [Frame 16; Rerender; Frame 16; Frame 968])
     = {| ref := 0; value := 0; running := None |}
  /\ commit (run stepDriver mount [Frame 1000; Start; Active 250; End; Rerender])
     = run stepDriver mount [Frame 1000; Start; Active 250; End; Rerender].
Proof.
  pose proof (entrance_once_from_300_to_0 stepDriver stepDriver_contract)
    as (_ & _ & _ & Hend & Honce).
  split; [exact stepDriver_contract|]. split; [reflexivity|]. split.
  - apply Hend; [reflexivity|]. simpl. lia.
  - apply Honce.
Defined.

(** * Further properties of the bottom sheet *)

Lemma float_zero_add (dy : float) :
  dy <> (- 0)%float -> (0 + dy)%float = dy.
Proof.
  intros Hdy. apply Prim2SF_inj. rewrite add_spec.
  change (Prim2SF 0) with (S754_zero false).
  destruct (Prim2SF dy) as [[]| | |] eqn:E; try reflexivity.
  destruct Hdy. apply Prim2SF_inj. by rewrite E.
Qed.

(** With no animation on [scale], renders and frames leave it alone. *)
Lemma passive_keeps_scale driver evs : forall c,
  mounted c ->
  running (scale c) = None ->
  forallb passive evs = true ->
  scale (run driver c evs) = scale c.
Proof.
  induction evs as [|ev evs IH]; intros c Hm Hsc Hevs; [done|].
  simpl in Hevs. apply andb_prop in Hevs as [Hev Hevs].
  rewrite run_cons.
  assert (scale (step driver c ev) = scale c) as Hstep.
  { destruct ev; try done; simpl.
    - by rewrite commit_mounted.
    - unfold advance. by rewrite Hsc. }
  rewrite IH; [done|by apply mounted_step|by rewrite Hstep|done].
Qed.

(** X14. The entrance only translates: while only frames and renders
    follow the mount, [scale] stays 1 with no animation, so the style
    scales by 1 on both axes; and once 1000 ms have run the style is the
    identity transform. *)
Theorem entrance_only_translates (driver : Driver) (evs : list Event) :
  DriverContract driver ->
  forallb passive evs = true ->
  let c := run driver mount evs in
  scale c = {| ref := 1; value := 1; running := None |} /\
  animatedStyle c = [TranslateY (value (translateY c)); ScaleX 1; ScaleY 1] /\
  (1000 <= duration_of evs ->
   animatedStyle c = [TranslateY 0; ScaleX 1; ScaleY 1]).
Proof.
  intros contract Hevs c.
  assert (scale c = scale mount) as Hsc
    by exact (passive_keeps_scale driver evs mount mounted_mount eq_refl Hevs).
  split; [exact Hsc|]. unfold animatedStyle. rewrite Hsc. split; [done|].
  intros Ht. pose proof (entering_from_mount driver contract evs Hevs) as E.
  fold c in E. destruct (existsb isFrame evs); simpl in E.
  - destruct E as [_ [(Hlt & _)|(_ & _ & ->)]]; [lia|done].
  - destruct E as [E _]. lia.
Qed.

Lemma entrance_only_translates_example :
  DriverContract stepDriver
  /\ animatedStyle (run stepDriver mount [Frame 16; Rerender; Frame 16])
     = [TranslateY 300; ScaleX 1; ScaleY 1]
  /\ animatedStyle (run stepDriver mount [Frame 16; Rerender; Frame 984])
     = [TranslateY 0; ScaleX 1; ScaleY 1].
Proof.
  split; [exact stepDriver_contract|]. split; [reflexivity|].
  apply (entrance_only_translates stepDriver [Frame 16; Rerender; Frame 984]
           stepDriver_contract eq_refl).
  simpl. lia.
Defined.

(** X15. A drag that begins once the entrance is over follows the finger
    exactly: after the start and any moves, the last of which reports the
    translation [dy] (any number but negative zero), [translateY] is [dy]
    itself, and the style translates by [dy] and scales both axes by
    [1 - dy / 1000] when [dy > 0] and by 1 otherwise. *)
Theorem drag_from_rest_is_the_translation (driver : Driver)
    (entranceFrames moves rest : list Event) (dy : float) :
  DriverContract driver ->
  forallb passive entranceFrames = true ->
  1000 <= duration_of entranceFrames ->
  forallb dragging moves = true ->
  forallb passive rest = true ->
  dy <> (- 0)%float ->
  let c := run driver (run driver mount entranceFrames)
             (Start :: moves ++ Active dy :: rest) in
  let factor := if (0 <? dy)%float then (1 - dy / 1000)%float else 1%float in
  value (translateY c) = dy /\
  animatedStyle c = [TranslateY dy; ScaleX factor; ScaleY factor].
Proof.
  intros contract Hentrance Ht Hmoves Hrest Hdy c factor.
  set (c0 := run driver mount entranceFrames) in *.
  assert (mounted c0) as Hc0 by apply mounted_run, mounted_mount.
  assert (value (translateY c0) = 0%float) as Hzero.
  { pose proof (entering_from_mount driver contract entranceFrames Hentrance) as E.
    fold c0 in E. destruct (existsb isFrame entranceFrames); simpl in E.
    - destruct E as [_ [(Hlt & _)|(_ & _ & ->)]]; [lia|done].
    - destruct E as [E _]. lia. }
  subst c. rewrite run_cons, run_app, run_cons. cbn [step].
  set (c1 := run driver (onStart c0) moves).
  assert (startY c1 = Some 0%float) as Hs.
  { subst c1. rewrite dragging_keeps_startY; [|exact Hc0|done].
    simpl. by rewrite Hzero. }
  assert (mounted c1) as Hc1 by by apply mounted_run.
  rewrite passive_idle; [|by apply (mounted_step driver c1 (Active dy))|done..].
  unfold animatedStyle. simpl. rewrite Hs. simpl.
  by rewrite (float_zero_add dy Hdy).
Qed.

Lemma drag_from_rest_is_the_translation_example :
  let c := run stepDriver (run stepDriver mount [Frame 1000])
             (Start :: [Active 10; Frame 16] ++ Active (-40) :: [Frame 16]) in
  value (translateY c) = (-40)%float /\
  animatedStyle c = [TranslateY (-40); ScaleX 1; ScaleY 1].
Proof.
  refine (drag_from_rest_is_the_translation stepDriver [Frame 1000]
            [Active 10; Frame 16] [Frame 16] (-40) stepDriver_contract
            eq_refl _ eq_refl eq_refl _).
  - simpl. lia.
  - intros H. discriminate (f_equal (fun x => (x <? 0)%float) H).
Defined.

End BottomSheetSpec.
